(** * Task_Tracker: the task store, its undo/redo history, validation,
      sorting and querying, embedded from the Python sources.

    Every source file re-declares [Task] and [TaskManager] and appends one
    feature class; each feature is embedded in a module of its own, on one
    shared model of Python objects:

    - a [Task] instance is an object with an identity (a location) whose
      attribute dictionary lives in an object store; marking a task mutates
      that dictionary in place;
    - a Python list of tasks is a list of locations; where a method can
      hand out the list bound to [self.tasks] itself ([filter_tasks]), the
      lists are objects with an identity too;
    - a saved state of the history is a list of copied dictionaries, a plain
      value;
    - strings are ASCII text ([string]); [str.lower] and [str.strip] are the
      ASCII restrictions of the Python methods. *)

From stdpp Require Import gmap strings list fin_maps sorting pretty.
From Stdlib Require Import Ascii String.

Local Open Scope string_scope.
Local Open Scope list_scope.

(** ** Python objects *)

(** Object identities. *)
Abbreviation loc := positive.

(** Lines written by [print], in order. *)
Abbreviation stdout := (list string).

(** ** Task and TaskManager

    Every feature file opens with the same two classes, word for word
    ([History_Undo.py] lines 10-97); [Core] embeds them once. *)

Module Core.

(** The attribute dictionary ([__dict__]) of a [Task] instance. *)
Record Task := mkTask {
  title : string;
  description : string;
  status : string
}.

#[global] Instance Task_eq_dec : EqDecision Task.
Proof. solve_decision. Defined.

#[global] Instance Task_inhabited : Inhabited Task :=
  populate (mkTask "" "" "").

(** [Task.__init__(title, description)] with the default status. *)
Definition Task_init (t d : string) : Task := mkTask t d "incomplete".

(** [Task.mark_complete] and [Task.mark_incomplete], on the dictionary. *)
Definition mark_complete (t : Task) : Task :=
  mkTask (title t) (description t) "complete".

Definition mark_incomplete (t : Task) : Task :=
  mkTask (title t) (description t) "incomplete".

(** The attribute dictionary of the object at [l]. A location outside the
    store reads as an empty dictionary; the lists the methods build never
    hold one (see [well_formed]). *)
Definition deref (h : gmap loc Task) (l : loc) : Task := h !!! l.

(** *** class TaskManager *)

(** [objs] is the store of [Task] objects, [tasks] the content of
    [self.tasks]. *)
Record TaskManager := mkTM {
  objs : gmap loc Task;
  tasks : list loc
}.

(** What [list_tasks] shows: the dictionaries of the tasks, in list order. *)
Definition view (m : TaskManager) : list Task := deref (objs m) <$> tasks m.

Module TaskManager.

Definition init : TaskManager := mkTM ∅ [].

(** [task = Task(title, description); self.tasks.append(task)] *)
Definition add_task (t d : string) (m : TaskManager) : TaskManager :=
  let l := fresh (dom (objs m)) in
  mkTM (<[l := Task_init t d]> (objs m)) (tasks m ++ [l]).

(** [self.tasks = [task for task in self.tasks if task.title != title]] *)
Definition remove_task (t : string) (m : TaskManager) : TaskManager :=
  mkTM (objs m)
       (filter (fun l => title (deref (objs m) l) <> t) (tasks m)).

(** [for task in self.tasks: if task.title == title: task.mark()] where
    [mark] is the method applied to the matching objects. *)
Definition mark_loop (mark : Task -> Task) (t : string)
    (h : gmap loc Task) (ls : list loc) : gmap loc Task :=
  foldl (fun h l => if decide (title (deref h l) = t)
                    then <[l := mark (deref h l)]> h else h) h ls.

Definition mark_task_complete (t : string) (m : TaskManager) : TaskManager :=
  mkTM (mark_loop mark_complete t (objs m) (tasks m)) (tasks m).

Definition mark_task_incomplete (t : string) (m : TaskManager) : TaskManager :=
  mkTM (mark_loop mark_incomplete t (objs m) (tasks m)) (tasks m).

(** [list_tasks]: one printed line per task, in list order. *)
Definition task_line (x : Task) : string :=
  "Title: " +:+ title x +:+ ", Description: " +:+ description x +:+
  ", Status: " +:+ status x.

Definition list_tasks (m : TaskManager) : stdout := task_line <$> view m.

End TaskManager.

(** Every element of [self.tasks] is an object of the store. *)
Definition well_formed (m : TaskManager) : Prop :=
  Forall (fun l => l ∈ dom (objs m)) (tasks m).

(** A task list with two tasks of one title, both incomplete. *)
Definition two_same_title : TaskManager :=
  TaskManager.add_task "A" "second" (TaskManager.add_task "A" "first" TaskManager.init).

(** The spec's reading of [setStatus], "updates the first matching task",
    on the dictionaries in list order; what the claim about the first match
    is compared with. *)
Fixpoint spec_setStatus_first (mark : Task -> Task) (t : string)
    (l : list Task) : list Task :=
  match l with
  | [] => []
  | x :: l => if decide (title x = t) then mark x :: l
              else x :: spec_setStatus_first mark t l
  end.

End Core.

(** ** History_Undo.py *)

Module History_Undo.
Import Core.

(** *** class TaskManagerWithHistory(TaskManager) *)

(** A saved state, [[task.__dict__.copy() for task in self.tasks]]: a fresh
    list of fresh dictionaries holding (immutable) strings, so a value that
    shares nothing with the live objects. *)
Abbreviation snapshot := (list Task).

(** [super] holds the inherited attributes; [history] and [redo_stack] are
    Python lists used as stacks, top at the end. *)
Record TaskManagerWithHistory := mkTMH {
  super : TaskManager;
  history : list snapshot;
  redo_stack : list snapshot
}.

(** The comprehension over a saved state that calls [Task] on every
    dictionary (keyword arguments [title], [description], [status]): one new
    object per dictionary. *)
Fixpoint restore (h : gmap loc Task) (state : snapshot)
    : gmap loc Task * list loc :=
  match state with
  | [] => (h, [])
  | d :: state =>
      let l := fresh (dom h) in
      let '(h', ls) := restore (<[l := mkTask (title d) (description d) (status d)]> h) state in
      (h', l :: ls)
  end.

Module TaskManagerWithHistory.

Definition init : TaskManagerWithHistory := mkTMH TaskManager.init [] [].

(** [self.history.append(copy of tasks); self.redo_stack.clear()] *)
Definition save_state (m : TaskManagerWithHistory) : TaskManagerWithHistory :=
  mkTMH (super m) (history m ++ [view (super m)]) [].

(** [undo]: the printed line comes with the new state. [last] is [None]
    exactly on the empty list, the [if not self.history] branch;
    otherwise it is what [self.history.pop()] returns and [removelast]
    what it leaves. *)
Definition undo (m : TaskManagerWithHistory) : TaskManagerWithHistory * stdout :=
  match last (history m) with
  | None => (m, ["No actions to undo."])
  | Some previous_state =>
      let redo := redo_stack m ++ [view (super m)] in
      let hist := removelast (history m) in
      let '(h, ls) := restore (objs (super m)) previous_state in
      (mkTMH (mkTM h ls) hist redo, ["Undo successful."])
  end.

Definition redo (m : TaskManagerWithHistory) : TaskManagerWithHistory * stdout :=
  match last (redo_stack m) with
  | None => (m, ["No actions to redo."])
  | Some next_state =>
      let hist := history m ++ [view (super m)] in
      let redo := removelast (redo_stack m) in
      let '(h, ls) := restore (objs (super m)) next_state in
      (mkTMH (mkTM h ls) hist redo, ["Redo successful."])
  end.

(** The overriding methods: [self.save_state()], then the inherited one. *)
Definition lift (f : TaskManager -> TaskManager)
    (m : TaskManagerWithHistory) : TaskManagerWithHistory :=
  mkTMH (f (super m)) (history m) (redo_stack m).

Definition add_task (t d : string) (m : TaskManagerWithHistory) :=
  lift (TaskManager.add_task t d) (save_state m).

Definition remove_task (t : string) (m : TaskManagerWithHistory) :=
  lift (TaskManager.remove_task t) (save_state m).

Definition mark_task_complete (t : string) (m : TaskManagerWithHistory) :=
  lift (TaskManager.mark_task_complete t) (save_state m).

Definition mark_task_incomplete (t : string) (m : TaskManagerWithHistory) :=
  lift (TaskManager.mark_task_incomplete t) (save_state m).

End TaskManagerWithHistory.

(** *** Sample states and statement forms *)

Definition list_titles (m : TaskManagerWithHistory) : list string :=
  title <$> view (super m).

(** The scenario of the spec, up to the removal. *)
Definition after_remove : TaskManagerWithHistory :=
  TaskManagerWithHistory.remove_task "A"
    (TaskManagerWithHistory.add_task "B" "d2"
      (TaskManagerWithHistory.add_task "A" "d1" TaskManagerWithHistory.init)).

(** A manager with a pending redo entry: add A, add B, undo. *)
Definition with_pending_redo : TaskManagerWithHistory :=
  (TaskManagerWithHistory.undo
     (TaskManagerWithHistory.add_task "B" "d2"
        (TaskManagerWithHistory.add_task "A" "d1" TaskManagerWithHistory.init))).1.

(** What every mutating entry point does to the history: the dictionaries
    of the tasks as they were before the call become the top of [history],
    [redo_stack] becomes empty, and the inherited method [base] runs on the
    inherited state. *)
Definition records_mutation
    (op : TaskManagerWithHistory -> TaskManagerWithHistory)
    (base : TaskManager -> TaskManager) : Prop :=
  forall m,
    history (op m) = history m ++ [view (super m)] /\
    redo_stack (op m) = [] /\
    super (op m) = base (super m).


(** A mutating call of the manager, and a run of such calls in order. *)
Inductive mutation :=
| Add (t d : string)
| Remove (t : string)
| Complete (t : string)
| Incomplete (t : string).

Definition call (o : mutation) (m : TaskManagerWithHistory) : TaskManagerWithHistory :=
  match o with
  | Add t d => TaskManagerWithHistory.add_task t d m
  | Remove t => TaskManagerWithHistory.remove_task t m
  | Complete t => TaskManagerWithHistory.mark_task_complete t m
  | Incomplete t => TaskManagerWithHistory.mark_task_incomplete t m
  end.

Definition run (os : list mutation) (m : TaskManagerWithHistory)
    : TaskManagerWithHistory :=
  foldl (fun m o => call o m) m os.

(** [n] calls of [undo], then of [redo]. *)
Fixpoint undo_n (n : nat) (m : TaskManagerWithHistory) : TaskManagerWithHistory :=
  match n with
  | O => m
  | S n => undo_n n (TaskManagerWithHistory.undo m).1
  end.

Fixpoint redo_n (n : nat) (m : TaskManagerWithHistory) : TaskManagerWithHistory :=
  match n with
  | O => m
  | S n => redo_n n (TaskManagerWithHistory.redo m).1
  end.

(** What [undo] and [redo] look at: the shown list and the two stacks. *)
Definition same_state (m m' : TaskManagerWithHistory) : Prop :=
  view (super m) = view (super m') /\
  history m = history m' /\
  redo_stack m = redo_stack m'.

End History_Undo.

(** ** error_handling_and_validation.py *)

Module error_handling_and_validation.
Import Core.

(** The exceptions the module can end with. The two custom classes are
    written in the file, between comment marks (lines 51-58), and so is
    [import logging] (line 10): the names the methods use for them are
    looked up in the module's globals when a method runs. *)
Inductive exception :=
| NameError (name : string)
| InvalidInputError (msg : string)
| TaskNotFoundError (msg : string).

Inductive outcome :=
| Return
| Raise (e : exception).

(** The manager, and the records handed to [logging] (level, message). *)
Record world := mkWorld {
  self : TaskManager;
  log : list (string * string)
}.

(** A statement runs on a world and ends normally or with an exception;
    what it changed before raising stays changed. *)
Definition stmt : Type := world -> outcome * world.

Definition seq (s1 s2 : stmt) : stmt :=
  fun w => match s1 w with
           | (Return, w') => s2 w'
           | (Raise e, w') => (Raise e, w')
           end.

Declare Scope stmt_scope.
Delimit Scope stmt_scope with stmt.
Notation "s1 ;; s2" := (seq s1 s2)
  (at level 100, s2 at level 200, right associativity) : stmt_scope.
Local Open Scope stmt_scope.

(** The names bound at module level once the file has been executed:
    the three imports that are not commented out and the three classes. *)
Definition module_globals : gset string :=
  {[ "json"; "os"; "datetime"; "Task"; "TaskManager";
     "TaskManagerWithValidation" ]}.

(** The globals with the commented-out lines put back. *)
Definition restored_globals : gset string :=
  module_globals ∪ {[ "logging"; "TaskNotFoundError"; "InvalidInputError" ]}.

(** [str.isspace] on ASCII: tab to carriage return, the four separators
    28-31 and the space. *)
Definition is_space (c : ascii) : bool :=
  let n := nat_of_ascii c in
  ((9 <=? n) && (n <=? 13) || (28 <=? n) && (n <=? 32))%nat.

Fixpoint lstrip (s : string) : string :=
  match s with
  | EmptyString => EmptyString
  | String c s' => if is_space c then lstrip s' else s
  end.

Definition rstrip (s : string) : string := String.rev (lstrip (String.rev s)).

(** [str.strip()] *)
Definition strip (s : string) : string := rstrip (lstrip s).

(** Python truth value of a string. *)
Definition truthy (s : string) : bool := negb (String.eqb s "").

Section module.

(** The module's globals at the time a method runs. *)
Variable globals : gset string.

(** Evaluating a global name. *)
Definition global (name : string) : stmt :=
  fun w => if decide (name ∈ globals) then (Return, w)
           else (Raise (NameError name), w).

(** [logging.error(msg)] and [logging.info(msg)]: the name [logging] is
    evaluated first, then the record is written. *)
Definition logging_call (level msg : string) : stmt :=
  global "logging" ;;
  fun w => (Return, mkWorld (self w) (log w ++ [(level, msg)])).

(** [raise cls(msg)], with [e] the exception that the class [cls] builds. *)
Definition raise (cls : string) (e : exception) : stmt :=
  global cls ;; fun w => (Raise e, w).

(** [super().method(...)] *)
Definition super_call (f : TaskManager -> TaskManager) : stmt :=
  fun w => (Return, mkWorld (f (self w)) (log w)).

(** [task_titles = [task.title for task in self.tasks]] *)
Definition task_titles (w : world) : list string := title <$> view (self w).

(** *** class TaskManagerWithValidation(TaskManager) *)

Definition add_task (t d : string) : stmt :=
  fun w =>
    if negb (truthy (strip t)) || negb (truthy (strip d)) then
      (logging_call "ERROR" "Failed to add task: Title or description is empty." ;;
       raise "InvalidInputError"
             (InvalidInputError "Task title and description cannot be empty.")) w
    else
      (super_call (TaskManager.add_task t d) ;;
       logging_call "INFO" ("Task added: " +:+ t)) w.

Definition not_found (t : string) : exception :=
  TaskNotFoundError ("Task with title '" +:+ t +:+ "' not found.").

Definition remove_task (t : string) : stmt :=
  fun w =>
    if decide (t ∉ task_titles w) then
      (logging_call "ERROR" ("Failed to remove task: Task '" +:+ t +:+ "' not found.") ;;
       raise "TaskNotFoundError" (not_found t)) w
    else
      (super_call (TaskManager.remove_task t) ;;
       logging_call "INFO" ("Task removed: " +:+ t)) w.

Definition mark_task_complete (t : string) : stmt :=
  fun w =>
    if decide (t ∉ task_titles w) then
      (logging_call "ERROR" ("Failed to mark task as complete: Task '" +:+ t +:+ "' not found.") ;;
       raise "TaskNotFoundError" (not_found t)) w
    else
      (super_call (TaskManager.mark_task_complete t) ;;
       logging_call "INFO" ("Task marked as complete: " +:+ t)) w.

Definition mark_task_incomplete (t : string) : stmt :=
  fun w =>
    if decide (t ∉ task_titles w) then
      (logging_call "ERROR" ("Failed to mark task as incomplete: Task '" +:+ t +:+ "' not found.") ;;
       raise "TaskNotFoundError" (not_found t)) w
    else
      (super_call (TaskManager.mark_task_incomplete t) ;;
       logging_call "INFO" ("Task marked as incomplete: " +:+ t)) w.

End module.

(** A new manager, nothing logged. *)
Definition new_world : world := mkWorld TaskManager.init [].

(** A manager holding one task, "A". *)
Definition world_with_A : world :=
  mkWorld (TaskManager.add_task "A" "d1" TaskManager.init) [].

(** Blank after trimming: empty, or white space only. *)
Definition blank (s : string) : Prop := strip s = "".

#[global] Instance blank_dec s : Decision (blank s).
Proof. unfold blank. apply _. Defined.

(** [list_tasks]: the outcome, the world, and the lines printed. The list
    is printed by the inherited method, after the call of [logging.info]. *)
Definition list_tasks (globals : gset string) (w : world)
    : outcome * world * stdout :=
  match tasks (self w) with
  | [] =>
      match logging_call globals "INFO" "No tasks to list." w with
      | (Return, w') => (Return, w', ["No tasks available."])
      | (Raise e, w') => (Raise e, w', [])
      end
  | _ :: _ =>
      match logging_call globals "INFO" "Listing all tasks." w with
      | (Return, w') => (Return, w', TaskManager.list_tasks (self w'))
      | (Raise e, w') => (Raise e, w', [])
      end
  end.

End error_handling_and_validation.

(** ** DueDatesAndSorting.py *)

Module DueDatesAndSorting.

(** A [datetime] value, as the number of microseconds since
    0001-01-01T00:00:00; [datetime] comparison is the order of these
    numbers. *)
Abbreviation datetime := N.

Definition microseconds_per_day : N := 86400000000.

(** [datetime.max], 9999-12-31T23:59:59.999999. *)
Definition datetime_max : datetime := 315537897599999999.

(** [datetime.strptime(s, "%Y-%m-%d")] is the midnight that opens the day
    written in [s]. The text is not parsed here: [day] is that day,
    counted from 0001-01-01 (day 0) to 9999-12-31 (day 3652058). *)
Definition strptime_Ymd (day : N) : datetime := (day * microseconds_per_day)%N.

(** The attribute dictionary of a [TaskWithDueDateAndPriority] instance. *)
Record TaskWithDueDateAndPriority := mkTask {
  title : string;
  description : string;
  status : string;
  due_date : option datetime;
  priority : string
}.

#[global] Instance TaskWithDueDateAndPriority_eq_dec :
  EqDecision TaskWithDueDateAndPriority.
Proof. solve_decision. Defined.

#[global] Instance TaskWithDueDateAndPriority_inhabited :
  Inhabited TaskWithDueDateAndPriority :=
  populate (mkTask "" "" "" None "").

(** [__init__], called as [add_task] calls it (status left at its default);
    [due] is [None] for a missing or empty [due_date] argument. *)
Definition TaskWithDueDateAndPriority_init
    (t d : string) (due : option N) (p : string) : TaskWithDueDateAndPriority :=
  mkTask t d "incomplete" (strptime_Ymd <$> due) p.

Definition deref (h : gmap loc TaskWithDueDateAndPriority) (l : loc)
    : TaskWithDueDateAndPriority := h !!! l.

(** *** class TaskManagerWithDueDatesAndSorting(TaskManager) *)

Record TaskManagerWithDueDatesAndSorting := mkTM {
  objs : gmap loc TaskWithDueDateAndPriority;
  tasks : list loc
}.

Definition view (m : TaskManagerWithDueDatesAndSorting)
    : list TaskWithDueDateAndPriority :=
  deref (objs m) <$> tasks m.

Definition init : TaskManagerWithDueDatesAndSorting := mkTM ∅ [].

Definition add_task (t d : string) (due : option N) (p : string)
    (m : TaskManagerWithDueDatesAndSorting) : TaskManagerWithDueDatesAndSorting :=
  let l := fresh (dom (objs m)) in
  mkTM (<[l := TaskWithDueDateAndPriority_init t d due p]> (objs m))
       (tasks m ++ [l]).

(** [list.sort(key=...)]: Python's sort is stable and compares keys only.
    A stable sort is determined by the keys (see [stable_sort_unique]
    below), so it is written here as insertion from the right, each element
    going in front of the first one whose key is not smaller. *)
Section list_sort.
Context {A : Type}.
Variable key : A -> N.

Fixpoint insert_by (x : A) (l : list A) : list A :=
  match l with
  | [] => [x]
  | y :: l' => if (key x <=? key y)%N then x :: l else y :: insert_by x l'
  end.

Definition list_sort (l : list A) : list A := foldr insert_by [] l.

(** The order [list.sort] sorts by. *)
Definition key_le (a b : A) : Prop := (key a <= key b)%N.

End list_sort.

(** [lambda task: task.due_date or datetime.max]; a [datetime] is never
    false, so [or] picks the due date whenever there is one. *)
Definition due_key (t : TaskWithDueDateAndPriority) : datetime :=
  default datetime_max (due_date t).

(** [self.tasks.sort(key=...)], in place. *)
Definition sort_tasks_by_due_date (m : TaskManagerWithDueDatesAndSorting)
    : TaskManagerWithDueDatesAndSorting :=
  mkTM (objs m) (list_sort (fun l => due_key (deref (objs m) l)) (tasks m)).

(** *** Statement forms and a sample *)

(** The due dates [__init__] produces: none, or a midnight within the range
    of [datetime]. *)
Definition from_init (t : TaskWithDueDateAndPriority) : Prop :=
  match due_date t with
  | None => True
  | Some d => (d `mod` microseconds_per_day = 0 /\ d <= datetime_max)%N
  end.

#[global] Instance from_init_dec t : Decision (from_init t).
Proof. unfold from_init. destruct (due_date t); apply _. Defined.

(** [a] may stand before [b] in a list sorted by due date: two dated tasks
    in non-decreasing date order, a dated task before a dateless one, or
    two dateless tasks; never a dateless task before a dated one. *)
Definition due_order (a b : TaskWithDueDateAndPriority) : Prop :=
  match due_date a, due_date b with
  | Some x, Some y => (x <= y)%N
  | Some _, None => True
  | None, Some _ => False
  | None, None => True
  end.

(** The example of the file's [__main__] block (2023-10-15, 2023-10-10, no
    date), with one more dateless task in front. *)
Definition sample : TaskManagerWithDueDatesAndSorting :=
  add_task "Workout" "Go for a run in the morning." None "low"
    (add_task "Buy groceries" "Get milk, eggs, and bread." (Some 738802%N) "medium"
      (add_task "Complete project" "Finish the project by the end of the week."
                (Some 738807%N) "high"
        (add_task "Read" "No date either." None "medium" init))).

(** *** The other methods of the file *)

(** The same sort for keys of any type, compared by [leb]: Python's sort
    asks only whether one key is smaller than the other. *)
Section list_sort_with.
Context {A K : Type}.
Variable leb : K -> K -> bool.
Variable key : A -> K.

Fixpoint insert_with (x : A) (l : list A) : list A :=
  match l with
  | [] => [x]
  | y :: l' => if leb (key x) (key y) then x :: l else y :: insert_with x l'
  end.

Definition list_sort_with (l : list A) : list A := foldr insert_with [] l.

(** The order it sorts by. *)
Definition key_le_with (a b : A) : Prop := leb (key a) (key b) = true.

End list_sort_with.

(** [priority_order = {"high": 1, "medium": 2, "low": 3}] *)
Definition priority_order : gmap string N :=
  {[ "high" := 1%N; "medium" := 2%N; "low" := 3%N ]}.

(** [lambda task: priority_order.get(task.priority, 4)] *)
Definition priority_key (t : TaskWithDueDateAndPriority) : N :=
  default 4%N (priority_order !! priority t).

Definition sort_tasks_by_priority (m : TaskManagerWithDueDatesAndSorting)
    : TaskManagerWithDueDatesAndSorting :=
  mkTM (objs m) (list_sort (fun l => priority_key (deref (objs m) l)) (tasks m)).

(** [self.tasks.sort(key=lambda task: task.status)]: the keys are strings,
    compared as Python compares [str], character by character. *)
Definition sort_tasks_by_status (m : TaskManagerWithDueDatesAndSorting)
    : TaskManagerWithDueDatesAndSorting :=
  mkTM (objs m)
       (list_sort_with String.leb (fun l => status (deref (objs m) l)) (tasks m)).

(** The inherited status changes, on the objects of this file:
    [self.status = new_status] for every task with the title. *)
Definition set_status (new_status : string) (x : TaskWithDueDateAndPriority)
    : TaskWithDueDateAndPriority :=
  mkTask (title x) (description x) new_status (due_date x) (priority x).

Definition mark_loop (new_status : string) (t : string)
    (h : gmap loc TaskWithDueDateAndPriority) (ls : list loc)
    : gmap loc TaskWithDueDateAndPriority :=
  foldl (fun h l => if decide (title (deref h l) = t)
                    then <[l := set_status new_status (deref h l)]> h else h)
        h ls.

Definition mark_task_complete (t : string) (m : TaskManagerWithDueDatesAndSorting)
    : TaskManagerWithDueDatesAndSorting :=
  mkTM (mark_loop "complete" t (objs m) (tasks m)) (tasks m).

Definition mark_task_incomplete (t : string) (m : TaskManagerWithDueDatesAndSorting)
    : TaskManagerWithDueDatesAndSorting :=
  mkTM (mark_loop "incomplete" t (objs m) (tasks m)) (tasks m).

(** What [is_due_soon] returns, or the [OverflowError] that
    [timedelta(days=days)] and the addition to [datetime.now()] raise out
    of range. *)
Inductive due_soon :=
| Due (b : bool)
| OverflowError.

(** [timedelta(days=days)], in microseconds; [timedelta] holds at most
    999999999 days either way. *)
Definition timedelta_days (days : Z) : option Z :=
  if decide (-999999999 <= days <= 999999999)%Z
  then Some (days * Z.of_N microseconds_per_day)%Z else None.

(** [datetime + timedelta], defined within the range of [datetime]. *)
Definition datetime_add (d : datetime) (delta : Z) : option datetime :=
  let r := (Z.of_N d + delta)%Z in
  if decide (0 <= r <= Z.of_N datetime_max)%Z then Some (Z.to_N r) else None.

(** [is_due_soon(days)], with [now] the value of [datetime.now()]:
    [if self.due_date: return now + timedelta(days=days) >= self.due_date]
    and [return False] otherwise. *)
Definition is_due_soon (now : datetime) (days : Z)
    (t : TaskWithDueDateAndPriority) : due_soon :=
  match due_date t with
  | None => Due false
  | Some due =>
      match timedelta_days days with
      | None => OverflowError
      | Some delta =>
          match datetime_add now delta with
          | None => OverflowError
          | Some limit => Due (due <=? limit)%N
          end
      end
  end.

(** Every element of [self.tasks] is an object of the store. *)
Definition well_formed (m : TaskManagerWithDueDatesAndSorting) : Prop :=
  Forall (fun l => l ∈ dom (objs m)) (tasks m).

(** A day that [strptime] accepts: 0001-01-01 to 9999-12-31. *)
Definition valid_day (due : option N) : Prop :=
  match due with
  | None => True
  | Some day => (day <= 3652058)%N
  end.

(** The two statuses the methods assign. *)
Definition known_status (t : TaskWithDueDateAndPriority) : Prop :=
  status t = "complete" \/ status t = "incomplete".

#[global] Instance known_status_dec t : Decision (known_status t).
Proof. unfold known_status. apply _. Defined.

(** What holds of every manager built through the methods: the list holds
    live objects, the due dates are those [__init__] yields, and the
    statuses are the two the methods assign. *)
Definition consistent (m : TaskManagerWithDueDatesAndSorting) : Prop :=
  well_formed m /\ Forall from_init (view m) /\ Forall known_status (view m).

(** [sample], with the groceries bought. *)
Definition sample_marked : TaskManagerWithDueDatesAndSorting :=
  mark_task_complete "Buy groceries" sample.

End DueDatesAndSorting.

(** ** advance-querying.py *)

Module advance_querying.
Import Core.

(** [filter_tasks] may hand out [self.tasks] itself, so here the lists are
    objects as well: [lists] stores their contents and [tasks] is the
    identity of the list bound to [self.tasks]. *)
Record AdvancedTaskManager := mkATM {
  objs : gmap loc Task;
  lists : gmap loc (list loc);
  tasks : loc
}.

(** The elements of the list object [l]. *)
Definition content (m : AdvancedTaskManager) (l : loc) : list loc :=
  lists m !!! l.

(** The dictionaries of the tasks in list [l], in order. *)
Definition view (m : AdvancedTaskManager) (l : loc) : list Task :=
  deref (objs m) <$> content m l.

(** A list display or comprehension: a new list object. *)
Definition new_list (c : list loc) (m : AdvancedTaskManager)
    : loc * AdvancedTaskManager :=
  let l := fresh (dom (lists m)) in
  (l, mkATM (objs m) (<[l := c]> (lists m)) (tasks m)).

(** [TaskManager.__init__]: [self.tasks = []] *)
Definition init : AdvancedTaskManager :=
  (new_list [] (mkATM ∅ ∅ 1%positive)).2.

(** The inherited [add_task]: [self.tasks.append(task)], in place. *)
Definition add_task (t d : string) (m : AdvancedTaskManager) : AdvancedTaskManager :=
  let l := fresh (dom (objs m)) in
  mkATM (<[l := Task_init t d]> (objs m))
        (<[tasks m := content m (tasks m) ++ [l]]> (lists m))
        (tasks m).

(** The inherited [mark_task_complete]. *)
Definition mark_task_complete (t : string) (m : AdvancedTaskManager)
    : AdvancedTaskManager :=
  mkATM (TaskManager.mark_loop mark_complete t (objs m) (content m (tasks m)))
        (lists m) (tasks m).

(** [str.lower], on ASCII. *)
Definition lower_ascii (c : ascii) : ascii :=
  let n := nat_of_ascii c in
  if ((65 <=? n) && (n <=? 90))%nat then ascii_of_nat (n + 32) else c.

Fixpoint lower (s : string) : string :=
  match s with
  | EmptyString => EmptyString
  | String c s' => String (lower_ascii c) (lower s')
  end.

(** [needle in hay], on strings: [needle] occurs in [hay]. *)
Fixpoint contains (needle hay : string) : bool :=
  String.prefix needle hay ||
  match hay with
  | EmptyString => false
  | String _ hay' => contains needle hay'
  end.

(** [keyword.lower() in task.title.lower() or
     keyword.lower() in task.description.lower()] *)
Definition keyword_hit (keyword : string) (task : Task) : bool :=
  contains (lower keyword) (lower (title task)) ||
  contains (lower keyword) (lower (description task)).

(** [any(... for keyword in keywords)] *)
Definition any_keyword (keywords : list string) (task : Task) : bool :=
  existsb (fun keyword => keyword_hit keyword task) keywords.

(** Truth value of an argument that is a string or [None], and of one that
    is a list or [None]. *)
Definition truthy_str (status : option string) : bool :=
  match status with
  | Some st => negb (String.eqb st "")
  | None => false
  end.

Definition truthy_list (keywords : option (list string)) : bool :=
  match keywords with
  | Some (_ :: _) => true
  | _ => false
  end.

(** *** class AdvancedTaskManager(TaskManager) *)

(** [filter_tasks(status, keywords)]: the returned list object and the
    store after the call. *)
Definition filter_tasks (status : option string) (keywords : option (list string))
    (m : AdvancedTaskManager) : loc * AdvancedTaskManager :=
  let filtered_tasks := tasks m in
  let '(filtered_tasks, m) :=
    if truthy_str status then
      new_list (filter (fun task => Some (Core.status (deref (objs m) task)) = status)
                       (content m filtered_tasks)) m
    else (filtered_tasks, m) in
  let '(filtered_tasks, m) :=
    if truthy_list keywords then
      new_list (filter (fun task =>
                          any_keyword (default [] keywords) (deref (objs m) task) = true)
                       (content m filtered_tasks)) m
    else (filtered_tasks, m) in
  (filtered_tasks, m).

(** *** Statement forms and a sample *)

(** Nothing that existed before the call was changed: the task objects, the
    binding of [self.tasks], and every list. *)
Definition store_unchanged (m m' : AdvancedTaskManager) : Prop :=
  objs m' = objs m /\ tasks m' = tasks m /\
  forall l, l ∈ dom (lists m) -> lists m' !! l = lists m !! l.

(** The spec's [combined]: a filter that is given (not [None]) must hold. *)
Definition spec_status_ok (status : option string) (task : Task) : Prop :=
  match status with
  | Some st => Core.status task = st
  | None => True
  end.

Definition spec_keywords_ok (keywords : option (list string)) (task : Task) : Prop :=
  match keywords with
  | Some kws => any_keyword kws task = true
  | None => True
  end.

#[global] Instance spec_status_ok_dec status task :
  Decision (spec_status_ok status task).
Proof. destruct status; simpl; apply _. Defined.

#[global] Instance spec_keywords_ok_dec keywords task :
  Decision (spec_keywords_ok keywords task).
Proof. destruct keywords; simpl; apply _. Defined.


(** What the code does: a filter is applied when its argument is true in
    Python's sense, so [None], the empty string and the empty list all
    pass every task. *)
Definition status_ok (status : option string) (task : Task) : Prop :=
  truthy_str status = true -> Some (Core.status task) = status.

Definition keywords_ok (keywords : option (list string)) (task : Task) : Prop :=
  truthy_list keywords = true -> any_keyword (default [] keywords) task = true.

#[global] Instance status_ok_dec status task : Decision (status_ok status task).
Proof. unfold status_ok. apply _. Defined.

#[global] Instance keywords_ok_dec keywords task :
  Decision (keywords_ok keywords task).
Proof. unfold keywords_ok. apply _. Defined.

(** Three tasks, the second one complete. *)
Definition sample : AdvancedTaskManager :=
  mark_task_complete "Buy groceries"
    (add_task "Workout" "Go for a run in the morning."
      (add_task "Buy groceries" "Get Milk, eggs, and bread."
        (add_task "Complete project" "Finish the project." init))).

(** *** The single-criterion queries *)

(** [[task for task in self.tasks if task.status == status]] *)
Definition filter_tasks_by_status (status : string) (m : AdvancedTaskManager)
    : loc * AdvancedTaskManager :=
  new_list (filter (fun task => Core.status (deref (objs m) task) = status)
                   (content m (tasks m))) m.

Definition search_tasks_by_keyword (keyword : string) (m : AdvancedTaskManager)
    : loc * AdvancedTaskManager :=
  new_list (filter (fun task => keyword_hit keyword (deref (objs m) task) = true)
                   (content m (tasks m))) m.

Definition search_tasks_by_keywords (keywords : list string)
    (m : AdvancedTaskManager) : loc * AdvancedTaskManager :=
  new_list (filter (fun task => any_keyword keywords (deref (objs m) task) = true)
                   (content m (tasks m))) m.

(** The tasks a query returned: the content of the returned list, in the
    store after the call. *)
Definition result (r : loc * AdvancedTaskManager) : list loc := content r.2 r.1.



End advance_querying.

(** ** CatandTagging.py *)

Module CatandTagging.

(** The attribute dictionary of a [TaskWithCategoriesAndTags] instance;
    [category] is [None] when none was given. *)
Record TaskWithCategoriesAndTags := mkTask {
  title : string;
  description : string;
  status : string;
  category : option string;
  tags : list string
}.

#[global] Instance TaskWithCategoriesAndTags_inhabited :
  Inhabited TaskWithCategoriesAndTags :=
  populate (mkTask "" "" "" None []).

(** [__init__], called as [add_task] calls it: [self.tags = tags or []]. *)
Definition TaskWithCategoriesAndTags_init (t d : string)
    (category : option string) (tags : option (list string))
    : TaskWithCategoriesAndTags :=
  mkTask t d "incomplete" category (default [] tags).

Definition deref (h : gmap loc TaskWithCategoriesAndTags) (l : loc)
    : TaskWithCategoriesAndTags := h !!! l.

(** *** class TaskManagerWithCategoriesAndTags(TaskManager) *)

Record TaskManagerWithCategoriesAndTags := mkTM {
  objs : gmap loc TaskWithCategoriesAndTags;
  tasks : list loc
}.

Definition view (m : TaskManagerWithCategoriesAndTags)
    : list TaskWithCategoriesAndTags :=
  deref (objs m) <$> tasks m.

Definition init : TaskManagerWithCategoriesAndTags := mkTM ∅ [].

Definition add_task (t d : string) (category : option string)
    (tags : option (list string)) (m : TaskManagerWithCategoriesAndTags)
    : TaskManagerWithCategoriesAndTags :=
  let l := fresh (dom (objs m)) in
  mkTM (<[l := TaskWithCategoriesAndTags_init t d category tags]> (objs m))
       (tasks m ++ [l]).

(** The queries return a new list; its elements are given. Every task of
    the manager is an instance of [TaskWithCategoriesAndTags], so the
    [isinstance] test of the comprehensions holds throughout. *)

(** [task.category == category] *)
Definition filter_tasks_by_category (c : string)
    (m : TaskManagerWithCategoriesAndTags) : list loc :=
  filter (fun task => category (deref (objs m) task) = Some c) (tasks m).

(** [any(tag in task.tags for tag in tags)] *)
Definition any_tag (ts : list string) (task : TaskWithCategoriesAndTags) : bool :=
  existsb (fun tag => bool_decide (tag ∈ tags task)) ts.

Definition search_tasks_by_tags (ts : list string)
    (m : TaskManagerWithCategoriesAndTags) : list loc :=
  filter (fun task => any_tag ts (deref (objs m) task) = true) (tasks m).

(** [str.split("/")]: the pieces between the slashes; never the empty
    list. *)
Fixpoint split_slash (s : string) : list string :=
  match s with
  | EmptyString => [EmptyString]
  | String c s' =>
      if Ascii.eqb c "/" then EmptyString :: split_slash s'
      else match split_slash s' with
           | piece :: pieces => String c piece :: pieces
           | [] => [String c EmptyString]
           end
  end.

(** [task.category and task.category.split("/") == category_hierarchy]:
    a category that is [None] or empty is false. *)
Definition in_hierarchy (hierarchy : list string)
    (task : TaskWithCategoriesAndTags) : Prop :=
  match category task with
  | None => False
  | Some c => c <> "" /\ split_slash c = hierarchy
  end.

#[global] Instance in_hierarchy_dec hierarchy task :
  Decision (in_hierarchy hierarchy task).
Proof. unfold in_hierarchy. destruct (category task); apply _. Defined.

Definition filter_tasks_by_nested_category (hierarchy : list string)
    (m : TaskManagerWithCategoriesAndTags) : list loc :=
  filter (fun task => in_hierarchy hierarchy (deref (objs m) task)) (tasks m).

(** *** Statement forms and a sample *)

(** ["/".join(pieces)] *)
Fixpoint join_slash (pieces : list string) : string :=
  match pieces with
  | [] => EmptyString
  | [piece] => piece
  | piece :: pieces => piece +:+ String "/" (join_slash pieces)
  end.

(** A text without a slash. *)
Fixpoint no_slash (s : string) : bool :=
  match s with
  | EmptyString => true
  | String c s' => negb (Ascii.eqb c "/") && no_slash s'
  end.

Definition sample : TaskManagerWithCategoriesAndTags :=
  add_task "Call mum" "" None None
    (add_task "Groceries" "" (Some "Home") (Some ["shopping"; "urgent"])
      (add_task "Report" "" (Some "Work/Project A") (Some ["urgent"]) init)).

End CatandTagging.

(** ** CollabFeature.py *)

Module CollabFeature.
Import Core.

(** A [Task] object of this file: the three attributes of [__init__], and
    the instance attributes the collaboration methods may add.
    [read_only] says that [mark_complete] and [mark_incomplete] have been
    rebound on the instance to the function that prints the denial;
    [comments] is [None] as long as the object has no such attribute. *)
Record TaskObject := mkObject {
  attrs : Task;
  read_only : bool;
  comments : option (list string)
}.

#[global] Instance TaskObject_inhabited : Inhabited TaskObject :=
  populate (mkObject (mkTask "" "" "") false None).

Definition deref (h : gmap loc TaskObject) (l : loc) : TaskObject := h !!! l.

(** [users] maps a user name to the content of that user's task list
    ([self.users[name].tasks.tasks]); [objs] is the store of task
    objects. *)
Record CollaborationManager := mkCM {
  objs : gmap loc TaskObject;
  users : gmap string (list loc)
}.

Definition init : CollaborationManager := mkCM ∅ ∅.

Definition add_user (username : string) (cm : CollaborationManager)
    : CollaborationManager * stdout :=
  match users cm !! username with
  | Some _ => (cm, ["User '" +:+ username +:+ "' already exists."])
  | None => (mkCM (objs cm) (<[username := []]> (users cm)),
             ["User '" +:+ username +:+ "' added successfully."])
  end.

(** [next((task for task in tasks if task.title == title), None)] *)
Definition first_titled (h : gmap loc TaskObject) (t : string) (ls : list loc)
    : option loc :=
  head (filter (fun l => title (attrs (deref h l)) = t) ls).

(** [Task(title, description, status)] of the task to share, with the two
    methods rebound when [permission == "read"]. *)
Definition shared_copy (o : TaskObject) (permission : string) : TaskObject :=
  mkObject (mkTask (title (attrs o)) (description (attrs o)) (status (attrs o)))
           (bool_decide (permission = "read")) None.

Definition share_task (from_user to_user task_title permission : string)
    (cm : CollaborationManager) : CollaborationManager * stdout :=
  match users cm !! from_user, users cm !! to_user with
  | Some from_tasks, Some to_tasks =>
      match first_titled (objs cm) task_title from_tasks with
      | None => (cm, ["Task '" +:+ task_title +:+ "' not found for user '" +:+
                       from_user +:+ "'."])
      | Some task_to_share =>
          let shared_task := fresh (dom (objs cm)) in
          (mkCM (<[shared_task :=
                     shared_copy (deref (objs cm) task_to_share) permission]>
                   (objs cm))
                (<[to_user := to_tasks ++ [shared_task]]> (users cm)),
           ["Task '" +:+ task_title +:+ "' shared from '" +:+ from_user +:+
            "' to '" +:+ to_user +:+ "' with '" +:+ permission +:+
            "' permission."])
      end
  | _, _ => (cm, ["Both users must exist to share a task."])
  end.

Definition add_comment_to_task (username task_title comment : string)
    (cm : CollaborationManager) : CollaborationManager * stdout :=
  match users cm !! username with
  | None => (cm, ["User '" +:+ username +:+ "' does not exist."])
  | Some user_tasks =>
      match first_titled (objs cm) task_title user_tasks with
      | None => (cm, ["Task '" +:+ task_title +:+ "' not found for user '" +:+
                       username +:+ "'."])
      | Some l =>
          let o := deref (objs cm) l in
          (mkCM (<[l := mkObject (attrs o) (read_only o)
                          (Some (default [] (comments o) ++ [comment]))]>
                   (objs cm))
                (users cm),
           ["Comment added to task '" +:+ task_title +:+ "' for user '" +:+
            username +:+ "'."])
      end
  end.

(** [task.mark_complete()] on an object: the method of the class, or the
    rebound one, which prints and changes nothing. *)
Definition call_mark_complete (o : TaskObject) : TaskObject * stdout :=
  if read_only o then (o, ["Permission denied: Read-only access."])
  else (mkObject (mark_complete (attrs o)) false (comments o), []).

(** [TaskManager.mark_task_complete(title)] on the list of one user, as a
    caller reaches it through [users[name].tasks]. *)
Definition mark_step (t : string) (acc : gmap loc TaskObject * stdout) (l : loc)
    : gmap loc TaskObject * stdout :=
  if decide (title (attrs (deref acc.1 l)) = t)
  then (<[l := (call_mark_complete (deref acc.1 l)).1]> acc.1,
        acc.2 ++ (call_mark_complete (deref acc.1 l)).2)
  else acc.

Definition mark_task_complete (t : string) (h : gmap loc TaskObject)
    (ls : list loc) : gmap loc TaskObject * stdout :=
  foldl (mark_step t) (h, []) ls.

(** *** Sample *)

(** Two users; ann has two tasks titled "Plan", the first one complete. *)
Definition sample : CollaborationManager :=
  let cm := (add_user "bob" (add_user "ann" init).1).1 in
  mkCM {[ 1%positive := mkObject (mkTask "Plan" "first" "complete") false (Some ["ok"]);
          2%positive := mkObject (mkTask "Plan" "second" "incomplete") false None ]}
       (<["ann" := [1%positive; 2%positive]]> (users cm)).

End CollabFeature.

(** ** UI_Enhancement.py *)

Module UI_Enhancement.
Import Core.

(** What the program writes to the terminal: a line by [print], or the
    prompt of an [input] call. *)
Inductive write :=
| Print (line : string)
| Prompt (text : string).

(** The terminal: the lines still to be typed and what was written. *)
Record console := mkConsole {
  stdin : list string;
  written : list write
}.

Definition print (line : string) (c : console) : console :=
  mkConsole (stdin c) (written c ++ [Print line]).

(** [input(prompt)]: the prompt is written, the next line is read; with no
    line left the call raises [EOFError]. *)
Definition input (prompt : string) (c : console) : option string * console :=
  match stdin c with
  | [] => (None, mkConsole [] (written c ++ [Prompt prompt]))
  | line :: rest => (Some line, mkConsole rest (written c ++ [Prompt prompt]))
  end.

Inductive outcome :=
| Return
| EOFError.

(** *** class ConsoleInterface *)

Record ConsoleInterface := mkCI {
  task_manager : TaskManager;
  command_history : list string;
  theme : string
}.

(** [__init__]: an empty [deque(maxlen=50)], theme "default". *)
Definition ConsoleInterface_init (task_manager : TaskManager) : ConsoleInterface :=
  mkCI task_manager [] "default".

(** [deque.append] with [maxlen=50]: when full, the oldest entries go. *)
Definition deque_append (x : string) (d : list string) : list string :=
  drop (List.length (d ++ [x]) - 50) (d ++ [x]).

Definition newline : string := String "010"%char EmptyString.

Definition display_menu (c : console) : console :=
  foldl (fun c line => print line c) c
    [newline +:+ "Task Manager Menu:"; "1. Add Task"; "2. Remove Task";
     "3. List Tasks"; "4. Mark Task as Complete"; "5. Mark Task as Incomplete";
     "6. View Command History"; "7. Change Theme"; "8. Exit"].

Definition change_theme (ci : ConsoleInterface) (c : console)
    : outcome * ConsoleInterface * console :=
  let c := foldl (fun c line => print line c) c
             [newline +:+ "Available Themes:"; "1. Default"; "2. Dark Mode";
              "3. Light Mode"] in
  match input "Choose a theme (1-3): " c with
  | (None, c) => (EOFError, ci, c)
  | (Some choice, c) =>
      if decide (choice = "1") then
        (Return, mkCI (task_manager ci) (command_history ci) "default",
         print "Theme set to Default." c)
      else if decide (choice = "2") then
        (Return, mkCI (task_manager ci) (command_history ci) "dark",
         print "Theme set to Dark Mode." c)
      else if decide (choice = "3") then
        (Return, mkCI (task_manager ci) (command_history ci) "light",
         print "Theme set to Light Mode." c)
      else (Return, ci, print "Invalid choice. Theme not changed." c)
  end.

(** A command that asks for a title and hands it to a method of the task
    manager. *)
Definition with_title (prompt : string) (method : string -> TaskManager -> TaskManager)
    (done_line : string) (ci : ConsoleInterface) (c : console)
    : outcome * ConsoleInterface * console :=
  match input prompt c with
  | (None, c) => (EOFError, ci, c)
  | (Some title, c) =>
      (Return, mkCI (method title (task_manager ci)) (command_history ci) (theme ci),
       print done_line c)
  end.

Definition execute_command (command : string) (ci : ConsoleInterface) (c : console)
    : outcome * ConsoleInterface * console :=
  let ci := mkCI (task_manager ci) (deque_append command (command_history ci))
                 (theme ci) in
  if decide (command = "1") then
    match input "Enter task title: " c with
    | (None, c) => (EOFError, ci, c)
    | (Some title, c) =>
        match input "Enter task description: " c with
        | (None, c) => (EOFError, ci, c)
        | (Some description, c) =>
            (Return,
             mkCI (TaskManager.add_task title description (task_manager ci))
                  (command_history ci) (theme ci),
             print "Task added successfully." c)
        end
    end
  else if decide (command = "2") then
    with_title "Enter task title to remove: " TaskManager.remove_task
               "Task removed successfully." ci c
  else if decide (command = "3") then
    (Return, ci,
     foldl (fun c line => print line c) (print "Listing all tasks:" c)
           (TaskManager.list_tasks (task_manager ci)))
  else if decide (command = "4") then
    with_title "Enter task title to mark as complete: "
               TaskManager.mark_task_complete "Task marked as complete." ci c
  else if decide (command = "5") then
    with_title "Enter task title to mark as incomplete: "
               TaskManager.mark_task_incomplete "Task marked as incomplete." ci c
  else if decide (command = "6") then
    (Return, ci,
     foldl (fun c line => print line c) (print "Command History:" c)
           (imap (fun i cmd => pretty (S i) +:+ ". " +:+ cmd) (command_history ci)))
  else if decide (command = "7") then change_theme ci c
  else if decide (command = "8") then
    (Return, ci, print "Exiting Task Manager. Goodbye!" c)
  else (Return, ci, print "Invalid command. Please try again." c).

(** [run]: the menu loop. Every round reads at least one line, so on a
    finite input the loop ends, by the exit command or by [EOFError];
    [fuel] bounds the rounds and [None] means it ran out (it does not when
    [fuel] exceeds the number of lines, see [run_enough_fuel]). *)
Fixpoint run (fuel : nat) (ci : ConsoleInterface) (c : console)
    : option (outcome * ConsoleInterface * console) :=
  match fuel with
  | O => None
  | S fuel =>
      match input "Enter your choice: " (display_menu c) with
      | (None, c) => Some (EOFError, ci, c)
      | (Some command, c) =>
          if decide (command = "8") then Some (Return, ci, c)
          else match execute_command command ci c with
               | (Return, ci, c) => run fuel ci c
               | (EOFError, ci, c) => Some (EOFError, ci, c)
               end
      end
  end.

(** The commands that hand a change to the task manager. *)
Definition mutating (command : string) : Prop :=
  command ∈ ["1"; "2"; "4"; "5"].

(** The commands of the menu. *)
Definition known (command : string) : Prop :=
  command ∈ ["1"; "2"; "3"; "4"; "5"; "6"; "7"; "8"].

End UI_Enhancement.

(** * Properties *)

Module Core_Facts.
Import Core.


(** *** Object store lemmas *)

Lemma deref_insert_eq (h : gmap loc Task) l x : deref (<[l := x]> h) l = x.
Proof. apply lookup_total_insert_eq. Qed.

Lemma deref_insert_ne (h : gmap loc Task) l l' x :
  l <> l' -> deref (<[l := x]> h) l' = deref h l'.
Proof. apply lookup_total_insert_ne. Qed.

Lemma deref_agree (h h' : gmap loc Task) l :
  h' !! l = h !! l -> deref h' l = deref h l.
Proof. unfold deref. rewrite !lookup_total_alt. by intros ->. Qed.

Lemma fmap_deref_agree (h h' : gmap loc Task) (ls : list loc) :
  (forall l, l ∈ ls -> deref h' l = deref h l) ->
  deref h' <$> ls = deref h <$> ls.
Proof.
  intros H. apply list_fmap_ext. intros i l Hl. apply H.
  by apply list_elem_of_lookup_2 in Hl.
Qed.

Lemma Task_eta d : mkTask (title d) (description d) (status d) = d.
Proof. by destruct d. Qed.

(** *** The marking loop *)

Section mark_loop.
Variable mark : Task -> Task.
Hypothesis mark_title : forall x, title (mark x) = title x.
Hypothesis mark_idem : forall x, mark (mark x) = mark x.
Variable t : string.

(** One object after the loop: marked when it is in the list and carries
    the title, untouched otherwise (also when listed twice). *)
Lemma mark_loop_deref ls : forall h l,
  deref (TaskManager.mark_loop mark t h ls) l =
  if decide (l ∈ ls /\ title (deref h l) = t)
  then mark (deref h l) else deref h l.
Proof.
  induction ls as [|l0 ls IH]; intros h l.
  - rewrite decide_False; [done|]. intros [H _]. by apply elem_of_nil in H.
  - change (TaskManager.mark_loop mark t h (l0 :: ls))
      with (TaskManager.mark_loop mark t
              (if decide (title (deref h l0) = t)
               then <[l0 := mark (deref h l0)]> h else h) ls).
    rewrite IH. clear IH.
    destruct (decide (title (deref h l0) = t)) as [E0|E0].
    + destruct (decide (l = l0)) as [->|Hne].
      * rewrite deref_insert_eq, mark_title, mark_idem.
        rewrite (decide_True (P := l0 ∈ l0 :: ls /\ _)) by (split; [left|done]).
        by destruct (decide _).
      * rewrite deref_insert_ne by done.
        destruct (decide (l ∈ ls /\ title (deref h l) = t)) as [[Hin Ht]|Hn].
        -- rewrite decide_True; [done|]. split; [by right|done].
        -- rewrite decide_False; [done|]. intros [Hin Ht]. apply Hn.
           split; [|done]. apply elem_of_cons in Hin as [?|?]; done.
    + destruct (decide (l ∈ ls /\ title (deref h l) = t)) as [[Hin Ht]|Hn].
      * rewrite decide_True; [done|]. split; [by right|done].
      * rewrite decide_False; [done|]. intros [Hin Ht]. apply Hn.
        split; [|done]. apply elem_of_cons in Hin as [->|?]; done.
Qed.

Lemma mark_loop_view h ls :
  deref (TaskManager.mark_loop mark t h ls) <$> ls =
  (fun x => if decide (title x = t) then mark x else x) <$> (deref h <$> ls).
Proof.
  rewrite <- list_fmap_compose. apply list_fmap_ext. intros i l Hl. simpl.
  apply list_elem_of_lookup_2 in Hl. rewrite mark_loop_deref.
  repeat case_decide; try done; exfalso; tauto.
Qed.

(** No listed object carries the title: the loop writes nothing. *)
Lemma mark_loop_absent ls : forall h,
  Forall (fun x => title x <> t) (deref h <$> ls) ->
  TaskManager.mark_loop mark t h ls = h.
Proof.
  induction ls as [|l0 ls IH]; intros h H; simpl; [done|].
  rewrite fmap_cons in H. apply Forall_cons in H as [H0 H].
  rewrite decide_False by done. by apply IH.
Qed.
End mark_loop.

Lemma mark_complete_title x : title (mark_complete x) = title x.
Proof. done. Qed.
Lemma mark_complete_idem x : mark_complete (mark_complete x) = mark_complete x.
Proof. done. Qed.
Lemma mark_incomplete_title x : title (mark_incomplete x) = title x.
Proof. done. Qed.
Lemma mark_incomplete_idem x :
  mark_incomplete (mark_incomplete x) = mark_incomplete x.
Proof. done. Qed.

(** *** Removal *)

Lemma filter_fmap_deref (P : Task -> Prop) `{!forall x, Decision (P x)}
    (h : gmap loc Task) (ls : list loc) :
  deref h <$> filter (fun l => P (deref h l)) ls = filter P (deref h <$> ls).
Proof.
  induction ls as [|l ls IH]; [done|].
  rewrite fmap_cons. destruct (decide (P (deref h l))) as [Hp|Hp].
  - rewrite !filter_cons_True by done. by rewrite fmap_cons, IH.
  - by rewrite !filter_cons_False.
Qed.

Lemma filter_all {A} (P : A -> Prop) `{!forall x, Decision (P x)} (l : list A) :
  Forall P l -> filter P l = l.
Proof.
  induction 1 as [|x l Hx _ IH]; [done|].
  by rewrite filter_cons_True, IH.
Qed.

(** *** TaskManager: the list holds live objects, in insertion order *)

Lemma well_formed_init : well_formed TaskManager.init.
Proof. constructor. Qed.

Lemma well_formed_add_task t d m :
  well_formed m -> well_formed (TaskManager.add_task t d m).
Proof.
  unfold well_formed, TaskManager.add_task. simpl. intros H.
  apply Forall_app. split.
  - eapply Forall_impl; [exact H|]. intros l Hl. simpl in *.
    rewrite dom_insert_L. by apply elem_of_union_r.
  - repeat constructor. rewrite dom_insert_L.
    apply elem_of_union_l. by apply elem_of_singleton.
Qed.

(** [add_task] puts the new task at the end and touches no other task. *)
Lemma view_add_task t d m :
  well_formed m -> view (TaskManager.add_task t d m) = view m ++ [Task_init t d].
Proof.
  unfold well_formed, view, TaskManager.add_task. simpl. intros H.
  rewrite fmap_app. simpl. rewrite deref_insert_eq. f_equal.
  apply fmap_deref_agree. intros l Hl. apply deref_insert_ne.
  rewrite Forall_forall in H. intros E. rewrite <- E in Hl.
  by apply (is_fresh (dom (objs m))), H.
Qed.

Lemma well_formed_remove_task t m :
  well_formed m -> well_formed (TaskManager.remove_task t m).
Proof.
  unfold well_formed, TaskManager.remove_task. simpl. intros H.
  rewrite Forall_forall in *. intros l Hl. apply H.
  apply list_elem_of_filter in Hl. tauto.
Qed.

Lemma mark_loop_dom mark t ls : forall h,
  dom h ⊆ dom (TaskManager.mark_loop mark t h ls).
Proof.
  induction ls as [|l ls IH]; intros h; [done|]. simpl.
  etrans; [|apply IH]. destruct (decide _); [|done].
  rewrite dom_insert_L. apply union_subseteq_r.
Qed.

Lemma well_formed_mark t m :
  well_formed m ->
  well_formed (TaskManager.mark_task_complete t m) /\
  well_formed (TaskManager.mark_task_incomplete t m).
Proof.
  unfold well_formed. simpl. intros H.
  split; (eapply Forall_impl; [exact H|]); intros l Hl; simpl in *;
    by eapply mark_loop_dom.
Qed.

(** *** TaskManager: removal and status changes *)

Lemma view_remove_task t m :
  view (TaskManager.remove_task t m) = filter (fun x => title x <> t) (view m).
Proof. exact (filter_fmap_deref (fun x => title x <> t) (objs m) (tasks m)). Qed.

Lemma remove_task_absent t m :
  Forall (fun x => title x <> t) (view m) -> TaskManager.remove_task t m = m.
Proof.
  intros H. unfold TaskManager.remove_task. destruct m as [h ls]. simpl. f_equal.
  apply filter_all. unfold view in H. simpl in H.
  rewrite Forall_fmap in H. exact H.
Qed.

Lemma C4_absent_aux t m :
  Forall (fun x => title x <> t) (view m) ->
  TaskManager.mark_task_complete t m = m /\
  TaskManager.mark_task_incomplete t m = m.
Proof.
  intros H. destruct m as [h ls].
  unfold TaskManager.mark_task_complete, TaskManager.mark_task_incomplete.
  simpl. by rewrite !mark_loop_absent.
Qed.

(** C4, as stated: marking would change the first task titled "A" only.
    The loop has no [break]: on [two_same_title] both tasks end complete. *)
Lemma C4_first_match_only_fails :
  view two_same_title =
    [mkTask "A" "first" "incomplete"; mkTask "A" "second" "incomplete"] /\
  view (TaskManager.mark_task_complete "A" two_same_title) =
    [mkTask "A" "first" "complete"; mkTask "A" "second" "complete"] /\
  view (TaskManager.mark_task_complete "A" two_same_title) <>
    spec_setStatus_first mark_complete "A" (view two_same_title).
Proof. split_and!; [by vm_compute..|]. vm_compute. intros H. discriminate H. Qed.

(** C4, amended: [mark_task_complete] and [mark_task_incomplete] set the
    status of every task in the list that carries the title and leave all
    other tasks, and the list itself, as they are; when no task carries the
    title the call changes nothing. *)
Theorem C4_marks_every_match (t : string) (m : TaskManager) :
  (view (TaskManager.mark_task_complete t m) =
     (fun x => if decide (title x = t) then mark_complete x else x) <$> view m /\
   tasks (TaskManager.mark_task_complete t m) = tasks m) /\
  (view (TaskManager.mark_task_incomplete t m) =
     (fun x => if decide (title x = t) then mark_incomplete x else x) <$> view m /\
   tasks (TaskManager.mark_task_incomplete t m) = tasks m) /\
  (Forall (fun x => title x <> t) (view m) ->
   TaskManager.mark_task_complete t m = m /\
   TaskManager.mark_task_incomplete t m = m).
Proof.
  split_and!; try done.
  - apply (mark_loop_view _ mark_complete_title mark_complete_idem).
  - apply (mark_loop_view _ mark_incomplete_title mark_incomplete_idem).
  - apply C4_absent_aux.
Qed.

Lemma C4_marks_every_match_witness :
  Forall (fun x => title x <> "B") (view two_same_title) /\
  TaskManager.mark_task_complete "B" two_same_title = two_same_title /\
  TaskManager.mark_task_incomplete "B" two_same_title = two_same_title.
Proof.
  assert (H : Forall (fun x => title x <> "B") (view two_same_title)).
  { apply (bool_decide_unpack _). vm_compute. exact I. }
  split; [exact H|].
  exact (proj2 (proj2 (C4_marks_every_match "B" two_same_title)) H).
Defined.

(** C5: [remove_task] keeps exactly the tasks whose title differs from the
    argument (string equality, so case matters), in their original order,
    and changes no task; there is no error outcome, and when no task has the
    title the manager is unchanged. *)
Theorem C5_remove_deletes_all_matches (t : string) (m : TaskManager) :
  view (TaskManager.remove_task t m) = filter (fun x => title x <> t) (view m) /\
  tasks (TaskManager.remove_task t m) `sublist_of` tasks m /\
  objs (TaskManager.remove_task t m) = objs m /\
  (Forall (fun x => title x <> t) (view m) -> TaskManager.remove_task t m = m).
Proof.
  split_and!.
  - apply view_remove_task.
  - apply sublist_filter.
  - done.
  - apply remove_task_absent.
Qed.

Lemma C5_remove_deletes_all_matches_witness :
  Forall (fun x => title x <> "a") (view two_same_title) /\
  TaskManager.remove_task "a" two_same_title = two_same_title.
Proof.
  assert (H : Forall (fun x => title x <> "a") (view two_same_title)).
  { apply (bool_decide_unpack _). vm_compute. exact I. }
  split; [exact H|].
  exact (proj2 (proj2 (proj2 (C5_remove_deletes_all_matches "a" two_same_title))) H).
Defined.

(** Both tasks titled "A" go at once; a differently cased title removes
    nothing. *)
Example remove_task_duplicates :
  view (TaskManager.remove_task "A" (TaskManager.add_task "B" "d" two_same_title)) =
    [mkTask "B" "d" "incomplete"].
Proof. by vm_compute. Qed.

End Core_Facts.

Module History_Undo_Facts.
Import Core History_Undo Core_Facts.
Import TaskManagerWithHistory.

(** [restore] builds objects that read back as the saved dictionaries and
    leaves every object that existed before as it was. *)
Lemma restore_spec (state : snapshot) : forall h,
  deref (restore h state).1 <$> (restore h state).2 = state /\
  (forall l, l ∈ dom h -> (restore h state).1 !! l = h !! l) /\
  dom h ⊆ dom (restore h state).1.
Proof.
  induction state as [|d state IH]; intros h; simpl; [done|].
  set (l := fresh (dom h)).
  specialize (IH (<[l := mkTask (title d) (description d) (status d)]> h)).
  destruct (restore _ state) as [h' ls] eqn:E. simpl in *.
  destruct IH as (Hv & Hold & Hdom).
  assert (Hl : l ∈ dom (<[l := mkTask (title d) (description d) (status d)]> h)).
  { rewrite dom_insert_L. apply elem_of_union_l, elem_of_singleton. done. }
  assert (Hfresh : l ∉ dom h) by apply is_fresh.
  split_and!.
  - f_equal; [|done].
    rewrite (deref_agree _ _ _ (Hold l Hl)), deref_insert_eq. apply Task_eta.
  - intros l' Hl'.
    rewrite Hold by (rewrite dom_insert_L; by apply elem_of_union_r).
    apply lookup_insert_ne. intros ->. done.
  - intros l' Hl'. apply Hdom. rewrite dom_insert_L. by apply elem_of_union_r.
Qed.

Lemma view_restore h state :
  view (mkTM (restore h state).1 (restore h state).2) = state.
Proof. apply restore_spec. Qed.


(** C1: the scenario of the spec. After add A, add B, remove A the list
    shows [B]; one undo shows [A, B]; a second undo shows [A]; two redos
    show [B] again. *)
Theorem C1_scenario :
  list_titles after_remove = ["B"] /\
  list_titles (undo after_remove).1 = ["A"; "B"] /\
  list_titles (undo (undo after_remove).1).1 = ["A"] /\
  list_titles (redo (redo (undo (undo after_remove).1).1).1).1 = ["B"].
Proof. split_and!; by vm_compute. Qed.

Lemma lift_save_state_records base :
  records_mutation (fun m => lift base (save_state m)) base.
Proof. intros m. done. Qed.


(** The saved copy does not follow the live objects: marking mutates the
    task object in place, the entry pushed just before keeps the old
    status. *)
Example snapshot_is_a_copy :
  let m := mark_task_complete "A" (add_task "A" "d1" init) in
  view (super m) = [mkTask "A" "d1" "complete"] /\
  last (history m) = Some [mkTask "A" "d1" "incomplete"].
Proof. split; by vm_compute. Qed.

Lemma undo_nonempty m hist prev :
  history m = hist ++ [prev] ->
  (undo m).2 = ["Undo successful."] /\
  redo_stack (undo m).1 = redo_stack m ++ [view (super m)] /\
  history (undo m).1 = hist /\
  view (super (undo m).1) = prev.
Proof.
  intros H. unfold undo. rewrite H, last_snoc, removelast_last.
  pose proof (view_restore (objs (super m)) prev) as Hv.
  destruct (restore _ prev) as [h ls]. done.
Qed.

Lemma redo_nonempty m stack next :
  redo_stack m = stack ++ [next] ->
  (redo m).2 = ["Redo successful."] /\
  history (redo m).1 = history m ++ [view (super m)] /\
  redo_stack (redo m).1 = stack /\
  view (super (redo m).1) = next.
Proof.
  intros H. unfold redo. rewrite H, last_snoc, removelast_last.
  pose proof (view_restore (objs (super m)) next) as Hv.
  destruct (restore _ next) as [h ls]. done.
Qed.

(** C3: [undo] on an empty undo stack prints that there is nothing to undo
    and returns the manager as it was; otherwise it pushes the copy of the
    current task list onto the redo stack, pops the undo stack and makes the
    popped state the task list. [redo] is the mirror image. *)
Theorem C3_undo_redo (m : TaskManagerWithHistory) :
  (history m = [] -> undo m = (m, ["No actions to undo."])) /\
  (forall hist prev, history m = hist ++ [prev] ->
     (undo m).2 = ["Undo successful."] /\
     redo_stack (undo m).1 = redo_stack m ++ [view (super m)] /\
     history (undo m).1 = hist /\
     view (super (undo m).1) = prev) /\
  (redo_stack m = [] -> redo m = (m, ["No actions to redo."])) /\
  (forall stack next, redo_stack m = stack ++ [next] ->
     (redo m).2 = ["Redo successful."] /\
     history (redo m).1 = history m ++ [view (super m)] /\
     redo_stack (redo m).1 = stack /\
     view (super (redo m).1) = next).
Proof.
  split_and!.
  - intros H. unfold undo. by rewrite H.
  - apply undo_nonempty.
  - intros H. unfold redo. by rewrite H.
  - apply redo_nonempty.
Qed.

Lemma C3_undo_redo_witness :
  undo init = (init, ["No actions to undo."]) /\
  redo init = (init, ["No actions to redo."]) /\
  view (super (undo after_remove).1) =
    [mkTask "A" "d1" "incomplete"; mkTask "B" "d2" "incomplete"] /\
  view (super (redo (undo after_remove).1).1) = [mkTask "B" "d2" "incomplete"].
Proof.
  split_and!.
  - apply (proj1 (C3_undo_redo init)). reflexivity.
  - apply (proj1 (proj2 (proj2 (C3_undo_redo init)))). reflexivity.
  - apply (proj1 (proj2 (C3_undo_redo after_remove))
             [[]; [mkTask "A" "d1" "incomplete"]]).
    vm_compute. reflexivity.
  - apply (proj2 (proj2 (proj2 (C3_undo_redo (undo after_remove).1))) []).
    vm_compute. reflexivity.
Defined.




End History_Undo_Facts.


Module error_handling_and_validation_Facts.
Import Core error_handling_and_validation.

(** *** The module as it is written *)

Lemma logging_unbound : "logging" ∉ module_globals.
Proof. apply (bool_decide_unpack _). vm_compute. exact I. Qed.

Lemma logging_call_unbound level msg w :
  logging_call module_globals level msg w = (Raise (NameError "logging"), w).
Proof.
  unfold logging_call, seq, global.
  by rewrite (decide_False (P := "logging" ∈ module_globals)) by apply logging_unbound.
Qed.

(** Every call of a validated method ends in [NameError]: on the failure
    path at [logging.error], before the intended exception is built, and on
    the success path at [logging.info], after the inherited method ran. *)
Lemma add_task_outcome t d w :
  (add_task module_globals t d w).1 = Raise (NameError "logging").
Proof.
  unfold add_task. destruct (_ || _); unfold seq.
  - by rewrite logging_call_unbound.
  - simpl. by rewrite logging_call_unbound.
Qed.

Lemma lookup_outcome (op : gset string -> string -> stmt) t w :
  op = remove_task \/ op = mark_task_complete \/ op = mark_task_incomplete ->
  (op module_globals t w).1 = Raise (NameError "logging").
Proof.
  intros [-> | [-> | ->]];
    unfold remove_task, mark_task_complete, mark_task_incomplete;
    destruct (decide _); unfold seq; simpl;
    by rewrite logging_call_unbound.
Qed.

(** C6, on the code: [add_task("", "x")] on a new validated manager ends
    in [NameError] for the name [logging], not in [InvalidInputError]; the
    manager is unchanged. With a non-blank title and description the task
    is appended and the call then ends in the same [NameError]. *)
Theorem C6_add_task_ends_in_NameError :
  add_task module_globals "" "x" new_world =
    (Raise (NameError "logging"), new_world) /\
  add_task module_globals "A" "d1" new_world =
    (Raise (NameError "logging"), world_with_A).
Proof. split; by vm_compute. Qed.

(** C7, on the code: removing or marking a title that no task has ends in
    [NameError] for the name [logging], not in [TaskNotFoundError]; the
    manager is unchanged. *)
Theorem C7_missing_title_ends_in_NameError :
  remove_task module_globals "B" world_with_A =
    (Raise (NameError "logging"), world_with_A) /\
  mark_task_complete module_globals "B" world_with_A =
    (Raise (NameError "logging"), world_with_A) /\
  mark_task_incomplete module_globals "B" world_with_A =
    (Raise (NameError "logging"), world_with_A).
Proof. split_and!; by vm_compute. Qed.

(** *** The module with the commented-out lines restored *)

Lemma restored_bound name :
  name = "logging" \/ name = "InvalidInputError" \/ name = "TaskNotFoundError" ->
  name ∈ restored_globals.
Proof.
  intros [-> | [-> | ->]]; apply (bool_decide_unpack _); vm_compute; exact I.
Qed.

Lemma logging_call_restored level msg w :
  logging_call restored_globals level msg w =
    (Return, mkWorld (self w) (log w ++ [(level, msg)])).
Proof.
  unfold logging_call, seq, global.
  by rewrite (decide_True (P := "logging" ∈ restored_globals))
    by (apply restored_bound; auto).
Qed.

Lemma raise_restored cls e w :
  cls = "InvalidInputError" \/ cls = "TaskNotFoundError" ->
  raise restored_globals cls e w = (Raise e, w).
Proof.
  intros H. unfold raise, seq, global.
  by rewrite (decide_True (P := cls ∈ restored_globals))
    by (apply restored_bound; tauto).
Qed.

Lemma truthy_false s : negb (truthy s) = true <-> s = "".
Proof.
  unfold truthy. rewrite negb_true_iff, negb_false_iff. apply String.eqb_eq.
Qed.

(** With [logging] and the exception classes in scope, [add_task] does what
    its docstring says: a blank title or description raises
    [InvalidInputError] and leaves the manager as it was, anything else is
    handed to the inherited [add_task]. *)
Lemma add_task_restored t d w :
  (blank t \/ blank d ->
   (add_task restored_globals t d w).1 =
     Raise (InvalidInputError "Task title and description cannot be empty.") /\
   self (add_task restored_globals t d w).2 = self w) /\
  (~ blank t -> ~ blank d ->
   (add_task restored_globals t d w).1 = Return /\
   self (add_task restored_globals t d w).2 = TaskManager.add_task t d (self w)).
Proof.
  unfold add_task, blank. split.
  - intros H.
    assert (E : negb (truthy (strip t)) || negb (truthy (strip d)) = true).
    { apply orb_true_iff. rewrite !truthy_false. exact H. }
    rewrite E. unfold seq. rewrite logging_call_restored.
    rewrite raise_restored by auto. done.
  - intros Ht Hd.
    assert (E : negb (truthy (strip t)) || negb (truthy (strip d)) = false).
    { apply not_true_iff_false. rewrite orb_true_iff, !truthy_false. tauto. }
    rewrite E. unfold seq, super_call. rewrite logging_call_restored. done.
Qed.

(** Likewise a title that no task has raises [TaskNotFoundError] before
    anything is changed. *)
Lemma remove_task_restored t w :
  (t ∉ task_titles w ->
   (remove_task restored_globals t w).1 = Raise (not_found t) /\
   self (remove_task restored_globals t w).2 = self w) /\
  (t ∈ task_titles w ->
   (remove_task restored_globals t w).1 = Return /\
   self (remove_task restored_globals t w).2 = TaskManager.remove_task t (self w)).
Proof.
  unfold remove_task. split; intros H.
  - rewrite decide_True by done. unfold seq.
    rewrite logging_call_restored, raise_restored by auto. done.
  - rewrite decide_False by (intros Hn; by apply Hn). unfold seq, super_call.
    rewrite logging_call_restored. done.
Qed.

Lemma mark_task_complete_restored t w :
  (t ∉ task_titles w ->
   (mark_task_complete restored_globals t w).1 = Raise (not_found t) /\
   self (mark_task_complete restored_globals t w).2 = self w) /\
  (t ∈ task_titles w ->
   (mark_task_complete restored_globals t w).1 = Return /\
   self (mark_task_complete restored_globals t w).2 =
     TaskManager.mark_task_complete t (self w)).
Proof.
  unfold mark_task_complete. split; intros H.
  - rewrite decide_True by done. unfold seq.
    rewrite logging_call_restored, raise_restored by auto. done.
  - rewrite decide_False by (intros Hn; by apply Hn). unfold seq, super_call.
    rewrite logging_call_restored. done.
Qed.

End error_handling_and_validation_Facts.


Module DueDatesAndSorting_Facts.
Import DueDatesAndSorting.

(** *** The sort *)

Section list_sort_facts.
Context {A : Type}.
Variable key : A -> N.

Lemma insert_by_perm x l : insert_by key x l ≡ₚ x :: l.
Proof.
  induction l as [|y l IH]; simpl; [done|].
  destruct (key x <=? key y)%N; [done|].
  rewrite IH. apply Permutation_swap.
Qed.

Lemma list_sort_perm l : list_sort key l ≡ₚ l.
Proof.
  induction l as [|x l IH]; simpl; [done|].
  by rewrite insert_by_perm, IH.
Qed.

Lemma insert_by_sorted x l :
  StronglySorted (key_le key) l -> StronglySorted (key_le key) (insert_by key x l).
Proof.
  induction l as [|y l IH]; simpl; intros Hs.
  - repeat constructor.
  - apply StronglySorted_cons in Hs as [Hy Hs].
    destruct (key x <=? key y)%N eqn:E.
    + apply N.leb_le in E. apply StronglySorted_cons. split.
      * constructor; [exact E|].
        eapply Forall_impl; [exact Hy|]. unfold key_le. intros z Hz. simpl in *. lia.
      * by apply StronglySorted_cons.
    + apply N.leb_gt in E. apply StronglySorted_cons. split; [|by apply IH].
      rewrite insert_by_perm. constructor; [unfold key_le; lia|done].
Qed.

Lemma list_sort_sorted l : StronglySorted (key_le key) (list_sort key l).
Proof.
  induction l as [|x l IH]; simpl; [constructor|]. by apply insert_by_sorted.
Qed.

(** Insertion never passes an element of equal key. *)
Lemma insert_by_filter k x l :
  filter (fun y => key y = k) (insert_by key x l) =
  filter (fun y => key y = k) (x :: l).
Proof.
  induction l as [|y l IH]; simpl; [done|].
  destruct (key x <=? key y)%N eqn:E; [done|]. apply N.leb_gt in E.
  destruct (decide (key y = k)) as [Ey|Ey].
  - rewrite (filter_cons_True _ y) by done. rewrite IH.
    rewrite (filter_cons_False _ x) by lia.
    rewrite (filter_cons_False _ x) by lia.
    by rewrite (filter_cons_True _ y) by done.
  - rewrite (filter_cons_False _ y) by done. rewrite IH.
    destruct (decide (key x = k)) as [Ex|Ex].
    + rewrite !(filter_cons_True _ x) by done.
      by rewrite (filter_cons_False _ y) by done.
    + rewrite !(filter_cons_False _ x) by done.
      by rewrite (filter_cons_False _ y) by done.
Qed.

(** Stability: the elements of any one key come out in the order they came
    in. *)
Lemma list_sort_stable k l :
  filter (fun y => key y = k) (list_sort key l) = filter (fun y => key y = k) l.
Proof.
  induction l as [|x l IH]; simpl; [done|].
  rewrite insert_by_filter. rewrite !filter_cons. by rewrite IH.
Qed.

(** A list sorted by key in which the elements of each key stand in the
    order they have in [l] is [list_sort key l]: the result of a stable sort
    does not depend on the algorithm. *)
Lemma stable_sort_unique : forall l1 l2 : list A,
  StronglySorted (key_le key) l1 -> StronglySorted (key_le key) l2 ->
  (forall k, filter (fun y => key y = k) l1 = filter (fun y => key y = k) l2) ->
  l1 = l2.
Proof.
  assert (Hhead : forall x l1 y l2,
    StronglySorted (key_le key) (x :: l1) -> StronglySorted (key_le key) (y :: l2) ->
    (forall k, filter (fun z => key z = k) (x :: l1) =
               filter (fun z => key z = k) (y :: l2)) ->
    (key x <= key y)%N).
  { intros x l1 y l2 H1 _ Hf.
    apply StronglySorted_cons in H1 as [H1 _].
    assert (Hy : y ∈ filter (fun z => key z = key y) (x :: l1)).
    { rewrite Hf. apply list_elem_of_filter. split; [done|left]. }
    apply list_elem_of_filter in Hy as [_ Hy].
    apply elem_of_cons in Hy as [->|Hy]; [lia|].
    rewrite Forall_forall in H1. by apply H1. }
  induction l1 as [|x l1 IH]; intros l2 H1 H2 Hf.
  - destruct l2 as [|y l2]; [done|]. specialize (Hf (key y)).
    rewrite filter_cons_True in Hf by done. discriminate Hf.
  - destruct l2 as [|y l2].
    { specialize (Hf (key x)). rewrite filter_cons_True in Hf by done.
      discriminate Hf. }
    assert (Ek : key x = key y).
    { apply N.le_antisymm; [by eapply Hhead|]. eapply Hhead; [done..|].
      intros k. by rewrite Hf. }
    pose proof (Hf (key x)) as Hx.
    rewrite filter_cons_True in Hx by done.
    rewrite (filter_cons_True _ y) in Hx by done.
    injection Hx as -> Hx. f_equal.
    apply StronglySorted_cons in H1 as [_ H1].
    apply StronglySorted_cons in H2 as [_ H2].
    apply IH; [done..|]. intros k. specialize (Hf k).
    rewrite !filter_cons in Hf. destruct (decide (key y = k)); [|done].
    by injection Hf.
Qed.

End list_sort_facts.

(** *** Sorting by due date *)

Lemma filter_ext_in {B} (P Q : B -> Prop)
    `{!forall x, Decision (P x)} `{!forall x, Decision (Q x)} (l : list B) :
  (forall x, x ∈ l -> (P x <-> Q x)) -> filter P l = filter Q l.
Proof.
  induction l as [|x l IH]; intros Hl; [done|].
  rewrite !filter_cons.
  assert (Hx : P x <-> Q x) by (apply Hl; left).
  rewrite IH by (intros y Hy; apply Hl; by right).
  destruct (decide (P x)), (decide (Q x)); tauto || done.
Qed.

(** A due date set by [__init__] is before [datetime.max]. *)
Lemma from_init_lt_max t d :
  from_init t -> due_date t = Some d -> (d < datetime_max)%N.
Proof.
  unfold from_init. intros H E. rewrite E in H. destruct H as [Hm Hle].
  assert (d <> datetime_max); [|lia].
  intros ->. vm_compute in Hm. discriminate Hm.
Qed.

Lemma dateless_iff_key_max t :
  from_init t -> due_date t = None <-> due_key t = datetime_max.
Proof.
  intros H. unfold due_key. destruct (due_date t) as [d|] eqn:E; simpl; [|done].
  pose proof (from_init_lt_max t d H E). split; [done|lia].
Qed.

Lemma key_le_due_order a b :
  from_init a -> from_init b -> key_le due_key a b -> due_order a b.
Proof.
  unfold key_le, due_key, due_order. intros Ha Hb.
  destruct (due_date a) as [x|] eqn:Ea, (due_date b) as [y|] eqn:Eb;
    simpl; try done.
  pose proof (from_init_lt_max b y Hb Eb). lia.
Qed.

Lemma key_sorted_due_order l :
  Forall from_init l -> StronglySorted (key_le due_key) l ->
  StronglySorted due_order l.
Proof.
  induction l as [|x l IH]; intros Hi Hs; [constructor|].
  apply Forall_cons in Hi as [Hx Hi].
  apply StronglySorted_cons in Hs as [Hxl Hs].
  apply StronglySorted_cons. split; [|by apply IH].
  rewrite Forall_forall in *. intros y Hy.
  apply key_le_due_order; auto.
Qed.

Lemma view_sorted_by_key m :
  StronglySorted (key_le due_key) (view (sort_tasks_by_due_date m)).
Proof.
  unfold view, sort_tasks_by_due_date. simpl.
  pose proof (list_sort_sorted (fun l => due_key (deref (objs m) l)) (tasks m)) as H.
  induction H as [|l ls Hs IH Hl]; [constructor|].
  rewrite fmap_cons. apply StronglySorted_cons. split; [|done].
  rewrite Forall_fmap. exact Hl.
Qed.

(** C8: after [sort_tasks_by_due_date] the manager holds the same task
    objects, unchanged; in the new order two dated tasks never stand in
    decreasing date order and no dateless task stands before a dated one;
    and the tasks of any one key, the dateless tasks among them, keep the
    order they had. The due dates are those [__init__] yields. *)
Theorem C8_sort_by_due_date (m : TaskManagerWithDueDatesAndSorting) :
  Forall from_init (view m) ->
  let m' := sort_tasks_by_due_date m in
  objs m' = objs m /\
  tasks m' ≡ₚ tasks m /\
  StronglySorted due_order (view m') /\
  (forall k,
     filter (fun l => due_key (deref (objs m) l) = k) (tasks m') =
     filter (fun l => due_key (deref (objs m) l) = k) (tasks m)) /\
  filter (fun l => due_date (deref (objs m) l) = None) (tasks m') =
  filter (fun l => due_date (deref (objs m) l) = None) (tasks m).
Proof.
  intros Hi m'.
  assert (Hp : tasks m' ≡ₚ tasks m) by apply list_sort_perm.
  assert (Hst : forall k,
     filter (fun l => due_key (deref (objs m) l) = k) (tasks m') =
     filter (fun l => due_key (deref (objs m) l) = k) (tasks m))
    by (intros k; apply list_sort_stable).
  assert (Hi' : Forall from_init (view m')).
  { unfold view in *. change (objs m') with (objs m). by rewrite Hp. }
  split_and!; try done.
  - apply key_sorted_due_order; [done|]. apply view_sorted_by_key.
  - unfold view in Hi, Hi'. change (objs m') with (objs m) in Hi'.
    rewrite Forall_fmap, Forall_forall in Hi, Hi'.
    rewrite (filter_ext_in _ (fun l => due_key (deref (objs m) l) = datetime_max)
               (tasks m'))
      by (intros l Hl; apply dateless_iff_key_max; by apply Hi').
    rewrite (filter_ext_in (fun l => due_date (deref (objs m) l) = None)
               (fun l => due_key (deref (objs m) l) = datetime_max) (tasks m))
      by (intros l Hl; apply dateless_iff_key_max; by apply Hi).
    apply Hst.
Qed.

Lemma C8_sort_by_due_date_witness :
  Forall from_init (view sample) /\
  StronglySorted due_order (view (sort_tasks_by_due_date sample)) /\
  filter (fun l => due_date (deref (objs sample) l) = None)
         (tasks (sort_tasks_by_due_date sample)) =
  filter (fun l => due_date (deref (objs sample) l) = None) (tasks sample).
Proof.
  assert (H : Forall from_init (view sample)).
  { apply (bool_decide_unpack _). vm_compute. exact I. }
  split; [exact H|].
  pose proof (C8_sort_by_due_date sample H) as (_ & _ & Hs & _ & Hd).
  split; [exact Hs | exact Hd].
Defined.

(** The sample: the two dated tasks come first, earliest first; the two
    dateless tasks follow, "Read" still before "Workout". *)
Example sort_sample :
  title <$> view sample = ["Read"; "Complete project"; "Buy groceries"; "Workout"] /\
  title <$> view (sort_tasks_by_due_date sample) =
    ["Buy groceries"; "Complete project"; "Read"; "Workout"].
Proof. split; by vm_compute. Qed.

End DueDatesAndSorting_Facts.


Module advance_querying_Facts.
Import Core advance_querying.

(** *** Substring test *)

Lemma prefix_app n : forall h,
  String.prefix n h = true <-> exists b, h = n +:+ b.
Proof.
  induction n as [|c n IH]; intros h.
  - split; [by exists h|by destruct h].
  - destruct h as [|c' h]; simpl; [split; [done|by intros [b Hb]]|].
    destruct (ascii_dec c c') as [->|Hne].
    + rewrite IH. split; intros [b Hb]; exists b; [by rewrite Hb|].
      by injection Hb.
    + split; [done|]. intros [b Hb]. injection Hb as -> _. done.
Qed.

(** [contains needle hay] holds exactly when [hay] is some text, then
    [needle], then some text. *)
Lemma contains_spec n : forall h,
  contains n h = true <-> exists a b, h = a +:+ n +:+ b.
Proof.
  induction h as [|c h IH].
  - change (contains n "") with (String.prefix n "" || false).
    rewrite orb_false_r, prefix_app. split.
    + intros [b Hb]. by exists "", b.
    + intros (a & b & Hab). destruct a as [|c a]; [by exists b|done].
  - change (contains n (String c h))
      with (String.prefix n (String c h) || contains n h).
    rewrite orb_true_iff, prefix_app. split.
    + intros [[b Hb]|Hc]; [by exists "", b|].
      apply IH in Hc as (a & b & ->). by exists (String c a), b.
    + intros (a & b & Hab). destruct a as [|c' a]; [left; by exists b|].
      right. apply IH. exists a, b. simpl in Hab. by injection Hab.
Qed.

(** *** List objects *)


Lemma new_list_content c m : content (new_list c m).2 (new_list c m).1 = c.
Proof. unfold content, new_list. simpl. apply lookup_total_insert_eq. Qed.

Lemma new_list_unchanged c m : store_unchanged m (new_list c m).2.
Proof.
  unfold store_unchanged, new_list. simpl. split_and!; try done.
  intros l Hl. apply lookup_insert_ne. intros E. rewrite <- E in Hl.
  by apply (is_fresh (dom (lists m))).
Qed.



Lemma store_unchanged_content m m' l :
  store_unchanged m m' -> l ∈ dom (lists m) -> content m' l = content m l.
Proof.
  intros (_ & _ & H) Hl. unfold content. rewrite !lookup_total_alt.
  by rewrite H.
Qed.

(** *** filter_tasks *)

Lemma status_ok_iff status task :
  truthy_str status = true ->
  Some (Core.status task) = status <-> status_ok status task.
Proof. unfold status_ok. tauto. Qed.

Lemma status_ok_absent status task : truthy_str status = false -> status_ok status task.
Proof. unfold status_ok. congruence. Qed.

Lemma keywords_ok_absent keywords task :
  truthy_list keywords = false -> keywords_ok keywords task.
Proof. unfold keywords_ok. congruence. Qed.

(** The content of the result, on any list [c] of the store's tasks. *)
Lemma filter_both status keywords (h : gmap loc Task) (c : list loc) :
  (if truthy_list keywords
   then filter (fun task => any_keyword (default [] keywords) (deref h task) = true)
   else id)
    ((if truthy_str status
      then filter (fun task => Some (Core.status (deref h task)) = status)
      else id) c) =
  filter (fun task => status_ok status (deref h task) /\
                      keywords_ok keywords (deref h task)) c.
Proof.
  destruct (truthy_str status) eqn:Es, (truthy_list keywords) eqn:Ek; simpl.
  - rewrite list_filter_filter. apply list_filter_iff. intros l.
    unfold status_ok, keywords_ok. rewrite Es, Ek. tauto.
  - apply list_filter_iff. intros l.
    unfold status_ok, keywords_ok. rewrite Es, Ek. split; [|tauto].
    intros H. split; [done|discriminate].
  - apply list_filter_iff. intros l.
    unfold status_ok, keywords_ok. rewrite Es, Ek. split; [|tauto].
    intros H. split; [discriminate|done].
  - symmetry. apply Core_Facts.filter_all. apply Forall_forall. intros l _.
    unfold status_ok, keywords_ok. rewrite Es, Ek. split; discriminate.
Qed.



(** An empty status and an empty keyword list count as absent: every task
    passes, where the filters read as given would pass none. *)
Example empty_filters_pass_all :
  let r := filter_tasks (Some "") (Some []) sample in
  title <$> view r.2 r.1 = ["Complete project"; "Buy groceries"; "Workout"] /\
  filter (fun task => spec_status_ok (Some "") (deref (objs sample) task) /\
                      spec_keywords_ok (Some []) (deref (objs sample) task))
         (content sample (tasks sample)) = [].
Proof. split; by vm_compute. Qed.

(** Status and keywords together; matching ignores case. *)
Example filter_sample :
  let r := filter_tasks (Some "incomplete") (Some ["RUN"; "project"]) sample in
  title <$> view r.2 r.1 = ["Complete project"; "Workout"] /\
  r.1 <> tasks sample /\
  title <$> view r.2 (tasks r.2) = ["Complete project"; "Buy groceries"; "Workout"].
Proof. split_and!; by vm_compute. Qed.

End advance_querying_Facts.


(** * Further properties of the task store *)

Module Core_Extra.
Import Core Core_Facts.

Lemma view_mark_task_complete t m :
  view (TaskManager.mark_task_complete t m) =
  (fun x => if decide (title x = t) then mark_complete x else x) <$> view m.
Proof. apply (mark_loop_view _ mark_complete_title mark_complete_idem). Qed.

Lemma view_mark_task_incomplete t m :
  view (TaskManager.mark_task_incomplete t m) =
  (fun x => if decide (title x = t) then mark_incomplete x else x) <$> view m.
Proof. apply (mark_loop_view _ mark_incomplete_title mark_incomplete_idem). Qed.

Lemma well_formed_two_same_title : well_formed two_same_title.
Proof. apply (bool_decide_unpack _). vm_compute. exact I. Qed.

(** X1: on a manager whose list holds live objects, [add_task] puts the new
    task, with status "incomplete", at the end of the list and leaves every
    other task as it was; [list_tasks] then prints the lines it printed
    before, followed by the line of the new task. *)
Theorem X1_add_task_appends (t d : string) (m : TaskManager) :
  well_formed m ->
  view (TaskManager.add_task t d m) = view m ++ [mkTask t d "incomplete"] /\
  TaskManager.list_tasks (TaskManager.add_task t d m) =
    TaskManager.list_tasks m ++
    ["Title: " +:+ t +:+ ", Description: " +:+ d +:+ ", Status: incomplete"].
Proof.
  intros H. pose proof (view_add_task t d m H) as Hv. split; [exact Hv|].
  unfold TaskManager.list_tasks. rewrite Hv, fmap_app. done.
Qed.

Lemma X1_add_task_appends_witness :
  well_formed two_same_title /\
  view (TaskManager.add_task "B" "d" two_same_title) =
    view two_same_title ++ [mkTask "B" "d" "incomplete"].
Proof.
  split; [exact well_formed_two_same_title|].
  exact (proj1 (X1_add_task_appends "B" "d" two_same_title
                  well_formed_two_same_title)).
Defined.

(** X2: every method of [TaskManager] keeps the list free of dangling
    references: if all elements of [self.tasks] are objects of the store
    before the call, they are after it. *)
Theorem X2_methods_keep_well_formed (t d : string) (m : TaskManager) :
  well_formed m ->
  well_formed (TaskManager.add_task t d m) /\
  well_formed (TaskManager.remove_task t m) /\
  well_formed (TaskManager.mark_task_complete t m) /\
  well_formed (TaskManager.mark_task_incomplete t m).
Proof.
  intros H. split_and!.
  - by apply well_formed_add_task.
  - by apply well_formed_remove_task.
  - by apply well_formed_mark.
  - by apply well_formed_mark.
Qed.

Lemma X2_methods_keep_well_formed_witness :
  well_formed two_same_title /\
  well_formed (TaskManager.remove_task "A" two_same_title).
Proof.
  split; [exact well_formed_two_same_title|].
  exact (proj1 (proj2 (X2_methods_keep_well_formed "A" "" two_same_title
                         well_formed_two_same_title))).
Defined.

Lemma filter_comm {A} (P Q : A -> Prop)
    `{!forall x, Decision (P x)} `{!forall x, Decision (Q x)} (l : list A) :
  filter P (filter Q l) = filter Q (filter P l).
Proof.
  rewrite !list_filter_filter. apply list_filter_iff. intros x. tauto.
Qed.

(** X3: after [remove_task(t)] no task titled [t] is left; removing the
    same title again changes nothing; and two removals give the same
    manager in either order. *)
Theorem X3_remove_task_composes (t t' : string) (m : TaskManager) :
  Forall (fun x => title x <> t) (view (TaskManager.remove_task t m)) /\
  TaskManager.remove_task t (TaskManager.remove_task t m) =
    TaskManager.remove_task t m /\
  TaskManager.remove_task t (TaskManager.remove_task t' m) =
    TaskManager.remove_task t' (TaskManager.remove_task t m).
Proof.
  assert (Hgone : Forall (fun x => title x <> t)
                    (view (TaskManager.remove_task t m))).
  { rewrite view_remove_task. apply Forall_forall. intros x Hx.
    apply list_elem_of_filter in Hx. tauto. }
  split_and!.
  - exact Hgone.
  - by apply remove_task_absent.
  - unfold TaskManager.remove_task. simpl. f_equal.
    apply (filter_comm (fun l => title (deref (objs m) l) <> t)
                       (fun l => title (deref (objs m) l) <> t')).
Qed.

(** X4: a status change keeps the titles, the descriptions and the order
    of all tasks; afterwards every task with the title has the new status;
    of two status changes for one title the later one decides, and a
    repeated one changes nothing more. *)
Theorem X4_status_changes_compose (t : string) (m : TaskManager) :
  let mc := TaskManager.mark_task_complete t in
  let mi := TaskManager.mark_task_incomplete t in
  (title <$> view (mc m) = title <$> view m /\
   description <$> view (mc m) = description <$> view m) /\
  (title <$> view (mi m) = title <$> view m /\
   description <$> view (mi m) = description <$> view m) /\
  Forall (fun x => title x = t -> status x = "complete") (view (mc m)) /\
  Forall (fun x => title x = t -> status x = "incomplete") (view (mi m)) /\
  view (mi (mc m)) = view (mi m) /\
  view (mc (mi m)) = view (mc m) /\
  view (mc (mc m)) = view (mc m) /\
  view (mi (mi m)) = view (mi m).
Proof.
  intros mc mi. subst mc mi.
  repeat (rewrite view_mark_task_complete || rewrite view_mark_task_incomplete).
  rewrite <- !list_fmap_compose.
  split_and!; try (apply list_fmap_ext; intros i x _; simpl;
                   repeat case_decide; done).
  - apply Forall_fmap, Forall_forall. intros x _. simpl.
    case_decide; [done|]. by intros ?.
  - apply Forall_fmap, Forall_forall. intros x _. simpl.
    case_decide; [done|]. by intros ?.
Qed.

End Core_Extra.

(** * Further properties of the undo/redo history *)

Module History_Undo_Extra.
Import Core History_Undo Core_Facts History_Undo_Facts.
Import TaskManagerWithHistory.

(** The inherited method behind each mutating call. *)
Lemma call_records o :
  exists base, records_mutation (call o) base.
Proof.
  destruct o; simpl; eexists; apply lift_save_state_records.
Qed.

Lemma undo_empty m : history m = [] -> undo m = (m, ["No actions to undo."]).
Proof. intros H. unfold undo. by rewrite H. Qed.

Lemma redo_empty m : redo_stack m = [] -> redo m = (m, ["No actions to redo."]).
Proof. intros H. unfold redo. by rewrite H. Qed.

Lemma nonempty_snoc {A} (l : list A) : l <> [] -> exists l' x, l = l' ++ [x].
Proof.
  intros H. destruct (last l) as [x|] eqn:E.
  - apply last_Some in E as [l' ->]. by exists l', x.
  - by apply last_None in E.
Qed.

(** X5: [undo] right after any mutating call shows the list as it was
    before the call and returns the undo stack to what it was; the state
    the call produced is the one entry of the redo stack. *)
Theorem X5_undo_reverts_a_mutation (o : mutation) (m : TaskManagerWithHistory) :
  let m' := call o m in
  (undo m').2 = ["Undo successful."] /\
  view (super (undo m').1) = view (super m) /\
  history (undo m').1 = history m /\
  redo_stack (undo m').1 = [view (super m')].
Proof.
  intros m'. destruct (call_records o) as [base Hrec].
  destruct (Hrec m) as (Hh & Hr & _). fold m' in Hh, Hr.
  destruct (undo_nonempty m' _ _ Hh) as (Ho & Hr' & Hh' & Hv).
  rewrite Hr in Hr'. done.
Qed.

Lemma redo_after_undo m : history m <> [] -> same_state (redo (undo m).1).1 m.
Proof.
  intros H. apply nonempty_snoc in H as (hist & prev & Hh).
  destruct (undo_nonempty m hist prev Hh) as (_ & Hr & Hh' & Hv).
  destruct (redo_nonempty (undo m).1 _ _ Hr) as (_ & Hh2 & Hr2 & Hv2).
  unfold same_state. rewrite Hv2, Hh2, Hr2, Hh', Hv, Hh. done.
Qed.

Lemma undo_after_redo m : redo_stack m <> [] -> same_state (undo (redo m).1).1 m.
Proof.
  intros H. apply nonempty_snoc in H as (stack & next & Hr).
  destruct (redo_nonempty m stack next Hr) as (_ & Hh & Hr' & Hv).
  destruct (undo_nonempty (redo m).1 _ _ Hh) as (_ & Hr2 & Hh2 & Hv2).
  unfold same_state. rewrite Hv2, Hh2, Hr2, Hr', Hv, Hr. done.
Qed.

(** X6: when there is something to undo, [undo] followed by [redo] brings
    back the list and both stacks exactly. *)
Theorem X6_redo_reverts_undo (m : TaskManagerWithHistory) :
  history m <> [] -> same_state (redo (undo m).1).1 m.
Proof. apply redo_after_undo. Qed.

Lemma X6_redo_reverts_undo_witness :
  history after_remove <> [] /\
  same_state (redo (undo after_remove).1).1 after_remove.
Proof.
  assert (H : history after_remove <> []) by (vm_compute; discriminate).
  split; [exact H|]. exact (X6_redo_reverts_undo after_remove H).
Defined.

(** X7: when there is something to redo, [redo] followed by [undo] brings
    back the list and both stacks exactly. *)
Theorem X7_undo_reverts_redo (m : TaskManagerWithHistory) :
  redo_stack m <> [] -> same_state (undo (redo m).1).1 m.
Proof. apply undo_after_redo. Qed.

Lemma X7_undo_reverts_redo_witness :
  redo_stack with_pending_redo <> [] /\
  same_state (undo (redo with_pending_redo).1).1 with_pending_redo.
Proof.
  assert (H : redo_stack with_pending_redo <> []) by (vm_compute; discriminate).
  split; [exact H|]. exact (X7_undo_reverts_redo with_pending_redo H).
Defined.

(** [undo] looks only at the shown list and the stacks. *)
Lemma undo_same_state a b : same_state a b -> same_state (undo a).1 (undo b).1.
Proof.
  intros (Hv & Hh & Hr). destruct (history b) as [|x l] eqn:E.
  - rewrite (undo_empty a), (undo_empty b) by congruence.
    simpl. split_and!; congruence.
  - assert (Hne : history b <> []) by (rewrite E; done).
    apply nonempty_snoc in Hne as (hist & prev & Hb).
    destruct (undo_nonempty b hist prev Hb) as (_ & Hrb & Hhb & Hvb).
    assert (Ha : history a = hist ++ [prev]) by congruence.
    destruct (undo_nonempty a hist prev Ha) as (_ & Hra & Hha & Hva).
    unfold same_state. rewrite Hva, Hvb, Hha, Hhb, Hra, Hrb, Hv, Hr. done.
Qed.

Lemma redo_same_state a b : same_state a b -> same_state (redo a).1 (redo b).1.
Proof.
  intros (Hv & Hh & Hr). destruct (redo_stack b) as [|x l] eqn:E.
  - rewrite (redo_empty a), (redo_empty b) by congruence.
    simpl. split_and!; congruence.
  - assert (Hne : redo_stack b <> []) by (rewrite E; done).
    apply nonempty_snoc in Hne as (stack & next & Hb).
    destruct (redo_nonempty b stack next Hb) as (_ & Hhb & Hrb & Hvb).
    assert (Ha : redo_stack a = stack ++ [next]) by congruence.
    destruct (redo_nonempty a stack next Ha) as (_ & Hha & Hra & Hva).
    unfold same_state. rewrite Hva, Hvb, Hha, Hhb, Hra, Hrb, Hv.
    split_and!; congruence.
Qed.

Lemma same_state_refl a : same_state a a.
Proof. done. Qed.

Lemma same_state_trans a b c : same_state a b -> same_state b c -> same_state a c.
Proof. unfold same_state. intros (-> & -> & ->) (-> & -> & ->). done. Qed.

Lemma redo_n_same_state n : forall a b,
  same_state a b -> same_state (redo_n n a) (redo_n n b).
Proof.
  induction n as [|n IH]; intros a b H; simpl; [done|].
  by apply IH, redo_same_state.
Qed.

Lemma redo_n_S n : forall m, redo_n (S n) m = (redo (redo_n n m)).1.
Proof.
  induction n as [|n IH]; intros m; [done|].
  change (redo_n (S (S n)) m) with (redo_n (S n) (redo m).1).
  rewrite IH. done.
Qed.

Lemma history_length_undo m :
  history m <> [] -> List.length (history m) = S (List.length (history (undo m).1)).
Proof.
  intros H. apply nonempty_snoc in H as (hist & prev & Hh).
  destruct (undo_nonempty m hist prev Hh) as (_ & _ & -> & _).
  rewrite Hh, length_app. simpl. lia.
Qed.

Lemma redo_n_undo_n n : forall m,
  n <= List.length (history m) -> same_state (redo_n n (undo_n n m)) m.
Proof.
  induction n as [|n IH]; intros m Hn; [done|].
  assert (Hne : history m <> []) by (intros E; rewrite E in Hn; simpl in Hn; lia).
  rewrite redo_n_S. simpl.
  eapply same_state_trans; [|by apply redo_after_undo].
  apply redo_same_state, IH.
  pose proof (history_length_undo m Hne). lia.
Qed.

(** X8: after [n] undos, with at least [n] states on the undo stack, [n]
    redos bring back the list and both stacks exactly. *)
Theorem X8_redo_all_reverts_undo_all (n : nat) (m : TaskManagerWithHistory) :
  n <= List.length (history m) -> same_state (redo_n n (undo_n n m)) m.
Proof. apply redo_n_undo_n. Qed.

Lemma X8_redo_all_reverts_undo_all_witness :
  2 <= List.length (history after_remove) /\
  same_state (redo_n 2 (undo_n 2 after_remove)) after_remove.
Proof.
  assert (H : 2 <= List.length (history after_remove)) by (vm_compute; lia).
  split; [exact H|]. exact (X8_redo_all_reverts_undo_all 2 after_remove H).
Defined.

(** The shown list and the undo stack after [undo] depend on the shown list
    and the undo stack only. *)
Lemma undo_past a b :
  view (super a) = view (super b) -> history a = history b ->
  view (super (undo a).1) = view (super (undo b).1) /\
  history (undo a).1 = history (undo b).1.
Proof.
  intros Hv Hh. destruct (history b) as [|x l] eqn:E.
  - rewrite (undo_empty a), (undo_empty b) by congruence.
    simpl. split; congruence.
  - assert (Hne : history b <> []) by (rewrite E; done).
    apply nonempty_snoc in Hne as (hist & prev & Hb).
    destruct (undo_nonempty b hist prev Hb) as (_ & _ & Hhb & Hvb).
    assert (Ha : history a = hist ++ [prev]) by congruence.
    destruct (undo_nonempty a hist prev Ha) as (_ & _ & Hha & Hva).
    by rewrite Hva, Hvb, Hha, Hhb.
Qed.

Lemma undo_n_past n : forall a b,
  view (super a) = view (super b) -> history a = history b ->
  view (super (undo_n n a)) = view (super (undo_n n b)) /\
  history (undo_n n a) = history (undo_n n b).
Proof.
  induction n as [|n IH]; intros a b Hv Hh; simpl; [done|].
  destruct (undo_past a b Hv Hh). by apply IH.
Qed.

Lemma run_snoc os o m : run (os ++ [o]) m = call o (run os m).
Proof. unfold run. by rewrite foldl_app. Qed.

Lemma undo_n_run os : forall m,
  view (super (undo_n (List.length os) (run os m))) = view (super m) /\
  history (undo_n (List.length os) (run os m)) = history m.
Proof.
  induction os as [|o os IH] using rev_ind; intros m; [done|].
  rewrite run_snoc, length_app, Nat.add_comm. simpl.
  destruct (call_records o) as [base Hrec].
  destruct (Hrec (run os m)) as (Hh & _ & _).
  destruct (undo_nonempty _ _ _ Hh) as (_ & _ & Hh' & Hv).
  destruct (undo_n_past (List.length os) _ (run os m) Hv Hh') as [-> ->].
  apply IH.
Qed.

(** X9: after any run of mutating calls, as many undos as there were calls
    show the list the run started from and leave the undo stack as it was
    then. *)
Theorem X9_undo_all_reverts_a_run (os : list mutation) (m : TaskManagerWithHistory) :
  view (super (undo_n (List.length os) (run os m))) = view (super m) /\
  history (undo_n (List.length os) (run os m)) = history m.
Proof. apply undo_n_run. Qed.

Lemma undo_n_empty n : forall m, history m = [] -> undo_n n m = m.
Proof.
  induction n as [|n IH]; intros m H; simpl; [done|].
  rewrite undo_empty by done. simpl. by apply IH.
Qed.

Lemma undo_n_beyond n : forall m,
  List.length (history m) <= n -> undo_n n m = undo_n (List.length (history m)) m.
Proof.
  induction n as [|n IH]; intros m Hn.
  - destruct (history m); [done|simpl in Hn; lia].
  - destruct (decide (history m = [])) as [E|Hne].
    + rewrite E. simpl. rewrite undo_empty by done. simpl. by apply undo_n_empty.
    + pose proof (history_length_undo m Hne) as Hl. rewrite Hl. simpl.
      apply IH. lia.
Qed.

(** X10: [undo] on an empty undo stack changes nothing, so undoing more
    often than there are saved states ends in the state that as many undos
    as saved states reach: the oldest one. *)
Theorem X10_undo_stops_at_the_oldest_state (n : nat) (m : TaskManagerWithHistory) :
  List.length (history m) <= n ->
  undo_n n m = undo_n (List.length (history m)) m /\
  history (undo_n n m) = [].
Proof.
  intros Hn. rewrite (undo_n_beyond n m Hn). split; [done|].
  clear n Hn. remember (List.length (history m)) as k eqn:Hk.
  revert m Hk. induction k as [|k IH]; intros m Hk; simpl.
  - by destruct (history m).
  - assert (Hne : history m <> []) by (intros E; rewrite E in Hk; done).
    apply IH. pose proof (history_length_undo m Hne). lia.
Qed.

Lemma X10_undo_stops_at_the_oldest_state_witness :
  List.length (history after_remove) <= 7 /\
  undo_n 7 after_remove = undo_n (List.length (history after_remove)) after_remove /\
  history (undo_n 7 after_remove) = [].
Proof.
  assert (H : List.length (history after_remove) <= 7) by (vm_compute; lia).
  split; [exact H|]. exact (X10_undo_stops_at_the_oldest_state 7 after_remove H).
Defined.

(** The objects [restore] builds are in the new store and were not in the
    old one. *)
Lemma restore_live (state : snapshot) : forall h,
  Forall (fun l => l ∈ dom (restore h state).1 /\ l ∉ dom h) (restore h state).2.
Proof.
  induction state as [|d state IH]; intros h; simpl; [constructor|].
  set (l := fresh (dom h)).
  set (h1 := <[l := mkTask (title d) (description d) (status d)]> h).
  specialize (IH h1). pose proof (restore_spec state h1) as (_ & _ & Hdom).
  destruct (restore h1 state) as [h' ls]. simpl in *.
  assert (Hl : l ∈ dom h1).
  { unfold h1. rewrite dom_insert_L. by apply elem_of_union_l, elem_of_singleton. }
  constructor.
  - split; [by apply Hdom|apply is_fresh].
  - eapply Forall_impl; [exact IH|]. intros l' [Hin Hout]. split; [done|].
    intros Hd. apply Hout. unfold h1. rewrite dom_insert_L.
    by apply elem_of_union_r.
Qed.

Lemma well_formed_restore h state :
  well_formed (mkTM (restore h state).1 (restore h state).2).
Proof.
  unfold well_formed. simpl. eapply Forall_impl; [apply restore_live|].
  by intros l [? _].
Qed.

Lemma well_formed_undo m : well_formed (super m) -> well_formed (super (undo m).1).
Proof.
  intros H. unfold undo. destruct (last (history m)) as [prev|]; [|done].
  pose proof (well_formed_restore (objs (super m)) prev) as Hw.
  by destruct (restore _ prev).
Qed.

Lemma well_formed_redo m : well_formed (super m) -> well_formed (super (redo m).1).
Proof.
  intros H. unfold redo. destruct (last (redo_stack m)) as [next|]; [|done].
  pose proof (well_formed_restore (objs (super m)) next) as Hw.
  by destruct (restore _ next).
Qed.

(** X11: every method of [TaskManagerWithHistory], [undo] and [redo]
    included, keeps the task list free of dangling references. *)
Theorem X11_history_methods_keep_well_formed
    (o : mutation) (m : TaskManagerWithHistory) :
  well_formed (super m) ->
  well_formed (super (call o m)) /\
  well_formed (super (undo m).1) /\
  well_formed (super (redo m).1).
Proof.
  intros H. split_and!.
  - destruct o; simpl.
    + by apply well_formed_add_task.
    + by apply well_formed_remove_task.
    + by apply well_formed_mark.
    + by apply well_formed_mark.
  - by apply well_formed_undo.
  - by apply well_formed_redo.
Qed.

Lemma X11_history_methods_keep_well_formed_witness :
  well_formed (super after_remove) /\
  well_formed (super (undo after_remove).1).
Proof.
  assert (H : well_formed (super after_remove)).
  { apply (bool_decide_unpack _). vm_compute. exact I. }
  split; [exact H|].
  exact (proj1 (proj2 (X11_history_methods_keep_well_formed
                         (Remove "A") after_remove H))).
Defined.

(** X12: a successful [undo] builds the restored list out of new task
    objects and changes none of the objects that existed: every object of
    the store reads as before, and no element of the new list is one of
    them. *)
Theorem X12_undo_builds_new_objects (m : TaskManagerWithHistory) :
  history m <> [] ->
  (forall l, l ∈ dom (objs (super m)) ->
     objs (super (undo m).1) !! l = objs (super m) !! l) /\
  Forall (fun l => l ∉ dom (objs (super m))) (tasks (super (undo m).1)).
Proof.
  intros H. apply nonempty_snoc in H as (hist & prev & Hh).
  unfold undo. rewrite Hh, last_snoc.
  pose proof (restore_spec prev (objs (super m))) as (_ & Hold & _).
  pose proof (restore_live prev (objs (super m))) as Hnew.
  destruct (restore _ prev) as [h ls]. simpl in *. split; [exact Hold|].
  eapply Forall_impl; [exact Hnew|]. by intros l [_ ?].
Qed.

Lemma X12_undo_builds_new_objects_witness :
  history after_remove <> [] /\
  Forall (fun l => l ∉ dom (objs (super after_remove)))
         (tasks (super (undo after_remove).1)).
Proof.
  assert (H : history after_remove <> []) by (vm_compute; discriminate).
  split; [exact H|]. exact (proj2 (X12_undo_builds_new_objects after_remove H)).
Defined.

End History_Undo_Extra.


(** * Further properties of the validated manager *)

Module error_handling_and_validation_Extra.
Import Core error_handling_and_validation error_handling_and_validation_Facts.


Lemma failure_path level msg (s : stmt) w :
  seq (logging_call module_globals level msg) s w =
    (Raise (NameError "logging"), w).
Proof. unfold seq. by rewrite logging_call_unbound. Qed.

Lemma success_path f level msg w :
  seq (super_call f) (logging_call module_globals level msg) w =
    (Raise (NameError "logging"), mkWorld (f (self w)) (log w)).
Proof. unfold seq, super_call. by rewrite logging_call_unbound. Qed.

(** X13: in the module as written, where the name [logging] is not bound,
    every call of every method of [TaskManagerWithValidation] ends in
    [NameError] for that name, whatever the arguments and the manager;
    nothing is logged, and [list_tasks] prints nothing. *)
Theorem X13_every_method_ends_in_NameError (t d : string) (w : world) :
  let failed (r : outcome * world) :=
    r.1 = Raise (NameError "logging") /\ log r.2 = log w in
  failed (add_task module_globals t d w) /\
  failed (remove_task module_globals t w) /\
  failed (mark_task_complete module_globals t w) /\
  failed (mark_task_incomplete module_globals t w) /\
  list_tasks module_globals w = (Raise (NameError "logging"), w, []).
Proof.
  intros failed. subst failed. cbv beta.
  split; [|split; [|split; [|split]]].
  - unfold add_task. destruct (_ || _);
      by rewrite ?failure_path, ?success_path.
  - unfold remove_task. destruct (decide (t ∉ task_titles w));
      by rewrite ?failure_path, ?success_path.
  - unfold mark_task_complete. destruct (decide (t ∉ task_titles w));
      by rewrite ?failure_path, ?success_path.
  - unfold mark_task_incomplete. destruct (decide (t ∉ task_titles w));
      by rewrite ?failure_path, ?success_path.
  - unfold list_tasks. destruct (tasks (self w)); by rewrite logging_call_unbound.
Qed.


End error_handling_and_validation_Extra.

(** * Further properties of sorting and due dates *)

Module DueDatesAndSorting_Extra.
Import DueDatesAndSorting DueDatesAndSorting_Facts.

(** *** The sort, for any total order on the keys *)

Section list_sort_with_facts.
Context {A K : Type} `{!EqDecision K}.
Variable leb : K -> K -> bool.
Variable key : A -> K.
Hypothesis leb_total : forall a b, leb a b = true \/ leb b a = true.
Hypothesis leb_trans : forall a b c,
  leb a b = true -> leb b c = true -> leb a c = true.
Hypothesis leb_antisym : forall a b, leb a b = true -> leb b a = true -> a = b.

Lemma leb_refl a : leb a a = true.
Proof. by destruct (leb_total a a). Qed.

Lemma leb_false a b : leb a b = false -> leb b a = true /\ a <> b.
Proof.
  intros H. split.
  - destruct (leb_total a b) as [E|E]; [congruence|done].
  - intros ->. rewrite leb_refl in H. discriminate H.
Qed.

Lemma insert_with_perm x l : insert_with leb key x l ≡ₚ x :: l.
Proof.
  induction l as [|y l IH]; simpl; [done|].
  destruct (leb (key x) (key y)); [done|].
  rewrite IH. apply Permutation_swap.
Qed.

Lemma list_sort_with_perm l : list_sort_with leb key l ≡ₚ l.
Proof.
  induction l as [|x l IH]; simpl; [done|].
  by rewrite insert_with_perm, IH.
Qed.

Lemma insert_with_sorted x l :
  StronglySorted (key_le_with leb key) l ->
  StronglySorted (key_le_with leb key) (insert_with leb key x l).
Proof.
  induction l as [|y l IH]; simpl; intros Hs.
  - repeat constructor.
  - apply StronglySorted_cons in Hs as [Hy Hs].
    destruct (leb (key x) (key y)) eqn:E.
    + apply StronglySorted_cons. split.
      * constructor; [exact E|].
        eapply Forall_impl; [exact Hy|]. intros z Hz. by eapply leb_trans.
      * by apply StronglySorted_cons.
    + apply leb_false in E as [E _].
      apply StronglySorted_cons. split; [|by apply IH].
      rewrite insert_with_perm. by constructor.
Qed.

Lemma list_sort_with_sorted l :
  StronglySorted (key_le_with leb key) (list_sort_with leb key l).
Proof.
  induction l as [|x l IH]; simpl; [constructor|]. by apply insert_with_sorted.
Qed.

Lemma insert_with_filter k x l :
  filter (fun y => key y = k) (insert_with leb key x l) =
  filter (fun y => key y = k) (x :: l).
Proof.
  induction l as [|y l IH]; simpl; [done|].
  destruct (leb (key x) (key y)) eqn:E; [done|].
  apply leb_false in E as [_ E].
  destruct (decide (key y = k)) as [Ey|Ey].
  - rewrite (filter_cons_True _ y) by done. rewrite IH.
    rewrite (filter_cons_False _ x) by congruence.
    rewrite (filter_cons_False _ x) by congruence.
    by rewrite (filter_cons_True _ y) by done.
  - rewrite (filter_cons_False _ y) by done. rewrite IH.
    destruct (decide (key x = k)) as [Ex|Ex].
    + rewrite !(filter_cons_True _ x) by done.
      by rewrite (filter_cons_False _ y) by done.
    + rewrite !(filter_cons_False _ x) by done.
      by rewrite (filter_cons_False _ y) by done.
Qed.

Lemma list_sort_with_stable k l :
  filter (fun y => key y = k) (list_sort_with leb key l) =
  filter (fun y => key y = k) l.
Proof.
  induction l as [|x l IH]; simpl; [done|].
  rewrite insert_with_filter. rewrite !filter_cons. by rewrite IH.
Qed.

Lemma sorted_head_le x l1 y l2 :
  StronglySorted (key_le_with leb key) (x :: l1) ->
  (forall k, filter (fun z => key z = k) (x :: l1) =
             filter (fun z => key z = k) (y :: l2)) ->
  leb (key x) (key y) = true.
Proof.
  intros H1 Hf. apply StronglySorted_cons in H1 as [H1 _].
  assert (Hy : y ∈ filter (fun z => key z = key y) (x :: l1)).
  { rewrite Hf. apply list_elem_of_filter. split; [done|left]. }
  apply list_elem_of_filter in Hy as [_ Hy].
  apply elem_of_cons in Hy as [->|Hy]; [apply leb_refl|].
  rewrite Forall_forall in H1. by apply H1.
Qed.

(** Two lists sorted by key that hold, for every key, the same elements in
    the same order are equal. *)
Lemma stable_sort_with_unique : forall l1 l2 : list A,
  StronglySorted (key_le_with leb key) l1 ->
  StronglySorted (key_le_with leb key) l2 ->
  (forall k, filter (fun y => key y = k) l1 = filter (fun y => key y = k) l2) ->
  l1 = l2.
Proof.
  induction l1 as [|x l1 IH]; intros l2 H1 H2 Hf.
  - destruct l2 as [|y l2]; [done|]. specialize (Hf (key y)).
    rewrite filter_cons_True in Hf by done. discriminate Hf.
  - destruct l2 as [|y l2].
    { specialize (Hf (key x)). rewrite filter_cons_True in Hf by done.
      discriminate Hf. }
    assert (Ek : key x = key y).
    { apply leb_antisym; [by eapply sorted_head_le|].
      eapply sorted_head_le; [done|]. intros k. by rewrite Hf. }
    pose proof (Hf (key x)) as Hx.
    rewrite filter_cons_True in Hx by done.
    rewrite (filter_cons_True _ y) in Hx by done.
    injection Hx as -> Hx. f_equal.
    apply StronglySorted_cons in H1 as [_ H1].
    apply StronglySorted_cons in H2 as [_ H2].
    apply IH; [done..|]. intros k. specialize (Hf k).
    rewrite !filter_cons in Hf. destruct (decide (key y = k)); [|done].
    by injection Hf.
Qed.

(** A list that is sorted already is left as it is. *)
Lemma list_sort_with_sorted_id l :
  StronglySorted (key_le_with leb key) l -> list_sort_with leb key l = l.
Proof.
  intros H. apply stable_sort_with_unique; [apply list_sort_with_sorted|done|].
  intros k. apply list_sort_with_stable.
Qed.

(** The elements grouped by key, the groups in the order [ks]. *)
Lemma filter_filter_key k j (l : list A) :
  filter (fun y => key y = k) (filter (fun y => key y = j) l) =
  if decide (k = j) then filter (fun y => key y = k) l else [].
Proof.
  rewrite list_filter_filter. destruct (decide (k = j)) as [->|Hne].
  - apply list_filter_iff. intros y. tauto.
  - induction l as [|y l IH]; [done|].
    rewrite filter_cons_False; [done|]. intros [? ?]. congruence.
Qed.

Lemma filter_groups k (l : list A) (ks : list K) :
  NoDup ks ->
  filter (fun y => key y = k) (ks ≫= fun j => filter (fun y => key y = j) l) =
  if decide (k ∈ ks) then filter (fun y => key y = k) l else [].
Proof.
  induction 1 as [|j ks Hj Hnd IH]; [done|].
  rewrite bind_cons, filter_app, filter_filter_key, IH.
  destruct (decide (k = j)) as [->|Hne].
  - rewrite (decide_False (P := j ∈ ks)) by done.
    rewrite decide_True by left. by rewrite app_nil_r.
  - destruct (decide (k ∈ ks)) as [Hin|Hout].
    + rewrite decide_True by (by right). done.
    + rewrite decide_False; [done|]. intros [?|?]%elem_of_cons; done.
Qed.

Lemma one_key_sorted j (l : list A) :
  StronglySorted (key_le_with leb key) (filter (fun y => key y = j) l).
Proof.
  induction l as [|y l IHl]; [constructor|].
  destruct (decide (key y = j)) as [E|E];
    [rewrite filter_cons_True by done|by rewrite filter_cons_False].
  apply StronglySorted_cons. split; [|done].
  apply Forall_forall. intros z Hz. apply list_elem_of_filter in Hz as [Ez _].
  unfold key_le_with. rewrite E, Ez. apply leb_refl.
Qed.

Lemma groups_sorted (l : list A) (ks : list K) :
  StronglySorted (fun a b => leb a b = true) ks ->
  StronglySorted (key_le_with leb key)
    (ks ≫= fun j => filter (fun y => key y = j) l).
Proof.
  induction 1 as [|j ks Hs IH Hj]; [constructor|].
  rewrite bind_cons. apply StronglySorted_app. split_and!; [| |exact IH].
  - intros x1 x2 Hx1 Hx2. apply list_elem_of_filter in Hx1 as [E1 _].
    apply list_elem_of_bind in Hx2 as (j' & Hx2 & Hj').
    apply list_elem_of_filter in Hx2 as [E2 _].
    unfold key_le_with. rewrite E1, E2.
    rewrite Forall_forall in Hj. by apply Hj.
  - apply one_key_sorted.
Qed.

(** When every key of [l] is one of the keys [ks], listed in increasing
    order, sorting [l] groups it by key: first the elements of the
    smallest key in their original order, then those of the next. *)
Lemma list_sort_with_groups (l : list A) (ks : list K) :
  StronglySorted (fun a b => leb a b = true) ks -> NoDup ks ->
  Forall (fun x => key x ∈ ks) l ->
  list_sort_with leb key l = ks ≫= fun j => filter (fun y => key y = j) l.
Proof.
  intros Hs Hnd Hall. apply stable_sort_with_unique.
  - apply list_sort_with_sorted.
  - by apply groups_sorted.
  - intros k. rewrite list_sort_with_stable, filter_groups by done.
    destruct (decide (k ∈ ks)) as [Hin|Hout]; [done|].
    induction Hall as [|x l Hx _ IH]; [done|].
    rewrite filter_cons_False; [done|]. intros E. by rewrite E in Hx.
Qed.

End list_sort_with_facts.

(** *** The two key orders of the file *)

Lemma N_leb_total a b : (a <=? b)%N = true \/ (b <=? a)%N = true.
Proof. rewrite !N.leb_le. lia. Qed.

Lemma N_leb_trans a b c :
  (a <=? b)%N = true -> (b <=? c)%N = true -> (a <=? c)%N = true.
Proof. rewrite !N.leb_le. lia. Qed.

Lemma N_leb_antisym a b : (a <=? b)%N = true -> (b <=? a)%N = true -> a = b.
Proof. rewrite !N.leb_le. lia. Qed.

Lemma String_leb_trans a b c :
  String.leb a b = true -> String.leb b c = true -> String.leb a c = true.
Proof.
  intros H1 H2. apply Is_true_true. apply Is_true_true in H1, H2.
  by apply (transitivity (R := String.le) H1).
Qed.

Lemma String_leb_antisym a b :
  String.leb a b = true -> String.leb b a = true -> a = b.
Proof. apply String.leb_antisym. Qed.

(** The sort on numeric keys is the general sort with [<=?]. *)
Lemma list_sort_with_N {A} (key : A -> N) l :
  list_sort key l = list_sort_with N.leb key l.
Proof.
  induction l as [|x l IH]; [done|]. simpl. rewrite IH.
  generalize (list_sort_with N.leb key l). intros r.
  induction r as [|y r IHr]; [done|]. simpl. by rewrite IHr.
Qed.



Lemma bind_nil {A B} (f : A -> list B) : [] ≫= f = [].
Proof. done. Qed.

(** *** Sorting by priority *)

Lemma priority_key_cases t :
  priority_key t =
    if decide (priority t = "high") then 1%N
    else if decide (priority t = "medium") then 2%N
    else if decide (priority t = "low") then 3%N else 4%N.
Proof.
  unfold priority_key, priority_order.
  rewrite !lookup_insert, lookup_singleton.
  repeat (case_decide; simplify_eq; try done).
Qed.

(** X15: [sort_tasks_by_priority] leaves the task objects as they are and
    reorders the list into four groups: the tasks of priority "high", then
    "medium", then "low", then every other priority text; inside each
    group the tasks keep the order they had. *)
Theorem X15_sort_by_priority_groups (m : TaskManagerWithDueDatesAndSorting) :
  let p l := priority (deref (objs m) l) in
  objs (sort_tasks_by_priority m) = objs m /\
  tasks (sort_tasks_by_priority m) =
    filter (fun l => p l = "high") (tasks m) ++
    filter (fun l => p l = "medium") (tasks m) ++
    filter (fun l => p l = "low") (tasks m) ++
    filter (fun l => p l <> "high" /\ p l <> "medium" /\ p l <> "low") (tasks m).
Proof.
  intros p. split; [done|]. unfold sort_tasks_by_priority. simpl.
  set (key l := priority_key (deref (objs m) l)).
  rewrite list_sort_with_N.
  rewrite (list_sort_with_groups N.leb key N_leb_total N_leb_trans N_leb_antisym
             (tasks m) [1; 2; 3; 4]%N).
  - rewrite !bind_cons, bind_nil, app_nil_r.
    repeat f_equal; apply list_filter_iff; intros l; unfold key, p;
      rewrite priority_key_cases; repeat case_decide;
      intuition (done || congruence).
  - repeat (apply StronglySorted_cons; split; [repeat constructor|]).
    constructor.
  - apply (bool_decide_unpack _). by vm_compute.
  - apply Forall_forall. intros l _. unfold key.
    rewrite priority_key_cases.
    repeat case_decide; apply (bool_decide_unpack _); by vm_compute.
Qed.

(** *** Sorting by status *)

(** X16: when every task has one of the two statuses the methods assign,
    [sort_tasks_by_status] puts the complete tasks first and the incomplete
    ones after them ("complete" is the smaller string), each group in the
    order it had; the task objects are left as they are. *)
Theorem X16_sort_by_status_complete_first (m : TaskManagerWithDueDatesAndSorting) :
  Forall known_status (view m) ->
  objs (sort_tasks_by_status m) = objs m /\
  tasks (sort_tasks_by_status m) =
    filter (fun l => status (deref (objs m) l) = "complete") (tasks m) ++
    filter (fun l => status (deref (objs m) l) = "incomplete") (tasks m).
Proof.
  intros H. split; [done|]. unfold sort_tasks_by_status. simpl.
  rewrite (list_sort_with_groups String.leb _ String.leb_total String_leb_trans
             String_leb_antisym (tasks m) ["complete"; "incomplete"]).
  - by rewrite !bind_cons, bind_nil, app_nil_r.
  - repeat (apply StronglySorted_cons; split; [repeat constructor|]).
    constructor.
  - apply (bool_decide_unpack _). by vm_compute.
  - unfold view in H. rewrite Forall_fmap in H.
    eapply Forall_impl; [exact H|]. intros l [E|E]; simpl in *; rewrite E.
    + left.
    + right. left.
Qed.

Lemma X16_sort_by_status_complete_first_witness :
  Forall known_status (view sample_marked) /\
  title <$> view (sort_tasks_by_status sample_marked) =
    ["Buy groceries"; "Read"; "Complete project"; "Workout"] /\
  tasks (sort_tasks_by_status sample_marked) =
    filter (fun l => status (deref (objs sample_marked) l) = "complete")
           (tasks sample_marked) ++
    filter (fun l => status (deref (objs sample_marked) l) = "incomplete")
           (tasks sample_marked).
Proof.
  assert (H : Forall known_status (view sample_marked)).
  { apply (bool_decide_unpack _). vm_compute. exact I. }
  split; [exact H|]. split; [by vm_compute|].
  exact (proj2 (X16_sort_by_status_complete_first sample_marked H)).
Defined.

(** *** Sorting again, and sorting by two keys *)

Lemma list_sort_idem {A} (key : A -> N) l :
  list_sort key (list_sort key l) = list_sort key l.
Proof.
  rewrite !list_sort_with_N.
  apply (list_sort_with_sorted_id N.leb key N_leb_total N_leb_trans N_leb_antisym).
  apply (list_sort_with_sorted N.leb key N_leb_total N_leb_trans).
Qed.

(** X17: each of the three sorts is idempotent: sorting a second time by
    the same key gives the same manager as sorting once. *)
Theorem X17_sorting_twice_is_sorting_once (m : TaskManagerWithDueDatesAndSorting) :
  sort_tasks_by_due_date (sort_tasks_by_due_date m) = sort_tasks_by_due_date m /\
  sort_tasks_by_priority (sort_tasks_by_priority m) = sort_tasks_by_priority m /\
  sort_tasks_by_status (sort_tasks_by_status m) = sort_tasks_by_status m.
Proof.
  split_and!.
  - unfold sort_tasks_by_due_date. simpl. f_equal. apply list_sort_idem.
  - unfold sort_tasks_by_priority. simpl. f_equal. apply list_sort_idem.
  - unfold sort_tasks_by_status. simpl. f_equal.
    apply (list_sort_with_sorted_id String.leb _ String.leb_total
             String_leb_trans String_leb_antisym).
    apply (list_sort_with_sorted String.leb _ String.leb_total String_leb_trans).
Qed.



(** *** is_due_soon *)

Lemma datetime_add_in_range now delta :
  (0 <= Z.of_N now + delta <= Z.of_N datetime_max)%Z ->
  datetime_add now delta = Some (Z.to_N (Z.of_N now + delta)).
Proof. intros H. unfold datetime_add. by rewrite decide_True. Qed.

(** X19: [is_due_soon] answers [False] for a task without due date,
    whatever [days] is. For a dated task and a day count the date
    arithmetic can carry, it answers whether the due date is at most
    [days] days after now; there is no lower bound, so every task whose
    due date has passed counts as due soon. A day count above 999999999
    raises [OverflowError] for a dated task. *)
Theorem X19_is_due_soon (now : datetime) (days : Z) (t : TaskWithDueDateAndPriority) :
  (due_date t = None -> is_due_soon now days t = Due false) /\
  (forall due, due_date t = Some due ->
     (0 <= days <= 999999999)%Z ->
     (Z.of_N now + days * Z.of_N microseconds_per_day <= Z.of_N datetime_max)%Z ->
     is_due_soon now days t =
       Due (bool_decide
              (Z.of_N due <= Z.of_N now + days * Z.of_N microseconds_per_day)%Z) /\
     ((due <= now)%N -> is_due_soon now days t = Due true)) /\
  (forall due, due_date t = Some due -> (999999999 < days)%Z ->
     is_due_soon now days t = OverflowError).
Proof.
  unfold is_due_soon. split_and!.
  - by intros ->.
  - intros due -> Hd Hr. unfold timedelta_days.
    rewrite decide_True by lia.
    assert (Hpos : (0 <= days * Z.of_N microseconds_per_day)%Z).
    { apply Z.mul_nonneg_nonneg; lia. }
    rewrite datetime_add_in_range by lia.
    assert (E : (due <=? Z.to_N (Z.of_N now + days * Z.of_N microseconds_per_day))%N
                = bool_decide
                    (Z.of_N due <= Z.of_N now + days * Z.of_N microseconds_per_day)%Z).
    { destruct (N.leb_spec due
                  (Z.to_N (Z.of_N now + days * Z.of_N microseconds_per_day)));
        [rewrite bool_decide_eq_true_2|rewrite bool_decide_eq_false_2]; (done || lia). }
    rewrite E. split; [done|]. intros Hover.
    rewrite bool_decide_eq_true_2; [done|lia].
  - intros due -> Hd. unfold timedelta_days. rewrite decide_False by lia. done.
Qed.

Lemma X19_is_due_soon_witness :
  let t := TaskWithDueDateAndPriority_init "Buy groceries" "" (Some 738802%N) "medium" in
  is_due_soon (strptime_Ymd 738800) 3 t = Due true /\
  is_due_soon (strptime_Ymd 738800) 1 t = Due false /\
  is_due_soon (strptime_Ymd 738900) 0 t = Due true /\
  is_due_soon (strptime_Ymd 738800) 1000000000 t = OverflowError.
Proof.
  intros t.
  pose proof (proj1 (proj2 (X19_is_due_soon (strptime_Ymd 738900) 0 t))
                (strptime_Ymd 738802) eq_refl) as H.
  split_and!.
  - by vm_compute.
  - by vm_compute.
  - apply H; [lia|by vm_compute|]. vm_compute. discriminate.
  - apply (proj2 (proj2 (X19_is_due_soon (strptime_Ymd 738800) 1000000000 t))
             (strptime_Ymd 738802) eq_refl). lia.
Defined.

(** *** What every manager built through the methods satisfies *)

Lemma due_deref_insert_eq (h : gmap loc TaskWithDueDateAndPriority) l x :
  deref (<[l := x]> h) l = x.
Proof. apply lookup_total_insert_eq. Qed.

Lemma due_deref_insert_ne (h : gmap loc TaskWithDueDateAndPriority) l l' x :
  l <> l' -> deref (<[l := x]> h) l' = deref h l'.
Proof. apply lookup_total_insert_ne. Qed.

Lemma due_view_add_task t d due p m :
  well_formed m ->
  view (add_task t d due p m) =
    view m ++ [TaskWithDueDateAndPriority_init t d due p].
Proof.
  unfold well_formed, view, add_task. simpl. intros H.
  rewrite fmap_app. simpl. rewrite due_deref_insert_eq. f_equal.
  apply list_fmap_ext. intros i l Hl. apply due_deref_insert_ne.
  apply list_elem_of_lookup_2 in Hl. rewrite Forall_forall in H.
  intros E. rewrite <- E in Hl. by apply (is_fresh (dom (objs m))), H.
Qed.

Lemma due_mark_loop_deref ns t ls : forall h l,
  deref (mark_loop ns t h ls) l =
  if decide (l ∈ ls /\ title (deref h l) = t)
  then set_status ns (deref h l) else deref h l.
Proof.
  induction ls as [|l0 ls IH]; intros h l.
  - rewrite decide_False; [done|]. intros [H _]. by apply elem_of_nil in H.
  - change (mark_loop ns t h (l0 :: ls))
      with (mark_loop ns t
              (if decide (title (deref h l0) = t)
               then <[l0 := set_status ns (deref h l0)]> h else h) ls).
    rewrite IH. clear IH.
    destruct (decide (title (deref h l0) = t)) as [E0|E0].
    + destruct (decide (l = l0)) as [->|Hne].
      * rewrite due_deref_insert_eq.
        rewrite (decide_True (P := l0 ∈ l0 :: ls /\ _)) by (split; [left|done]).
        by destruct (decide _).
      * rewrite due_deref_insert_ne by done.
        destruct (decide (l ∈ ls /\ title (deref h l) = t)) as [[Hin Ht]|Hn].
        -- rewrite decide_True; [done|]. split; [by right|done].
        -- rewrite decide_False; [done|]. intros [Hin Ht]. apply Hn.
           split; [|done]. apply elem_of_cons in Hin as [?|?]; done.
    + destruct (decide (l ∈ ls /\ title (deref h l) = t)) as [[Hin Ht]|Hn].
      * rewrite decide_True; [done|]. split; [by right|done].
      * rewrite decide_False; [done|]. intros [Hin Ht]. apply Hn.
        split; [|done]. apply elem_of_cons in Hin as [->|?]; done.
Qed.

Lemma due_mark_loop_view ns t h ls :
  deref (mark_loop ns t h ls) <$> ls =
  (fun x => if decide (title x = t) then set_status ns x else x) <$> (deref h <$> ls).
Proof.
  rewrite <- list_fmap_compose. apply list_fmap_ext. intros i l Hl. simpl.
  apply list_elem_of_lookup_2 in Hl. rewrite due_mark_loop_deref.
  repeat case_decide; try done; exfalso; tauto.
Qed.

Lemma due_mark_loop_dom ns t ls : forall h, dom h ⊆ dom (mark_loop ns t h ls).
Proof.
  induction ls as [|l ls IH]; intros h; [done|]. simpl.
  etrans; [|apply IH]. destruct (decide _); [|done].
  rewrite dom_insert_L. apply union_subseteq_r.
Qed.

Lemma consistent_mark ns t m :
  ns = "complete" \/ ns = "incomplete" ->
  consistent m -> consistent (mkTM (mark_loop ns t (objs m) (tasks m)) (tasks m)).
Proof.
  intros Hns (Hw & Hi & Hk). unfold consistent, well_formed, view. simpl.
  split_and!.
  - eapply Forall_impl; [exact Hw|]. intros l Hl. by eapply due_mark_loop_dom.
  - rewrite due_mark_loop_view. apply Forall_fmap.
    eapply Forall_impl; [exact Hi|]. intros x Hx. simpl. by case_decide.
  - rewrite due_mark_loop_view. apply Forall_fmap.
    eapply Forall_impl; [exact Hk|]. intros x Hx. simpl.
    case_decide; [|done]. unfold known_status. simpl. tauto.
Qed.

Lemma consistent_reorder m ls :
  ls ≡ₚ tasks m -> consistent m -> consistent (mkTM (objs m) ls).
Proof.
  intros Hp (Hw & Hi & Hk). unfold consistent, well_formed, view in *. simpl.
  by rewrite !Hp.
Qed.

Lemma from_init_strptime day :
  (day <= 3652058)%N ->
  (strptime_Ymd day `mod` microseconds_per_day = 0 /\
   strptime_Ymd day <= datetime_max)%N.
Proof.
  intros H. unfold strptime_Ymd. split.
  - apply N.Div0.mod_mul.
  - transitivity (3652058 * microseconds_per_day)%N.
    + by apply N.mul_le_mono_r.
    + by vm_compute.
Qed.

Lemma consistent_init : consistent init.
Proof. unfold consistent, well_formed, view. simpl. split_and!; constructor. Qed.

(** X20: a manager whose list holds live objects, with due dates as
    [__init__] yields them and statuses "complete" or "incomplete", stays
    such under [add_task] (for a day [strptime] accepts), under the three
    sorts and under both status changes. *)
Theorem X20_methods_keep_consistent
    (t d p : string) (due : option N) (m : TaskManagerWithDueDatesAndSorting) :
  consistent m -> valid_day due ->
  consistent (add_task t d due p m) /\
  consistent (sort_tasks_by_due_date m) /\
  consistent (sort_tasks_by_priority m) /\
  consistent (sort_tasks_by_status m) /\
  consistent (mark_task_complete t m) /\
  consistent (mark_task_incomplete t m).
Proof.
  intros Hc Hd. split_and!.
  - destruct Hc as (Hw & Hi & Hk). unfold consistent.
    rewrite due_view_add_task by done. split_and!.
    + unfold well_formed, add_task. simpl. apply Forall_app. split.
      * eapply Forall_impl; [exact Hw|]. intros l Hl. simpl in *.
        rewrite dom_insert_L. by apply elem_of_union_r.
      * apply Forall_singleton. rewrite dom_insert_L.
        by apply elem_of_union_l, elem_of_singleton.
    + apply Forall_app. split; [done|]. apply Forall_singleton.
      unfold from_init. simpl. destruct due as [day|]; simpl; [|done].
      by apply from_init_strptime.
    + apply Forall_app. split; [done|]. apply Forall_singleton. by right.
  - apply consistent_reorder; [apply list_sort_perm|done].
  - apply consistent_reorder; [apply list_sort_perm|done].
  - apply consistent_reorder; [apply list_sort_with_perm|done].
  - apply consistent_mark; [tauto|done].
  - apply consistent_mark; [tauto|done].
Qed.

Lemma X20_methods_keep_consistent_witness :
  consistent sample /\ valid_day (Some 738900%N) /\
  consistent (add_task "Pay rent" "" (Some 738900%N) "high" sample) /\
  Forall from_init (view (sort_tasks_by_status sample)).
Proof.
  assert (Hc : consistent sample).
  { unfold consistent, well_formed.
    split_and!; apply (bool_decide_unpack _); vm_compute; exact I. }
  assert (Hd : valid_day (Some 738900%N)) by (vm_compute; discriminate).
  pose proof (X20_methods_keep_consistent "Pay rent" "" "high" _ sample Hc Hd)
    as (Ha & _ & _ & Hs & _).
  split_and!; [exact Hc|exact Hd|exact Ha|exact (proj1 (proj2 Hs))].
Defined.

End DueDatesAndSorting_Extra.


(** * Further properties of the queries *)

Module advance_querying_Extra.
Import Core advance_querying advance_querying_Facts.





Lemma filter_tasks_result status keywords m :
  result (filter_tasks status keywords m) =
  filter (fun task => status_ok status (deref (objs m) task) /\
                      keywords_ok keywords (deref (objs m) task))
         (content m (tasks m)).
Proof.
  rewrite <- filter_both. unfold result, filter_tasks.
  destruct (truthy_str status) eqn:Es; [|destruct (truthy_list keywords) eqn:Ek].
  - set (c1 := filter _ (content m (tasks m))).
    pose proof (new_list_content c1 m) as Hc1.
    pose proof (new_list_unchanged c1 m) as Hu1.
    destruct (new_list c1 m) as [r1 m1]. cbn [fst snd] in Hc1, Hu1.
    destruct (truthy_list keywords) eqn:Ek; [|done].
    set (c2 := filter _ (content m1 r1)).
    pose proof (new_list_content c2 m1) as Hc2.
    destruct (new_list c2 m1) as [r2 m2]. cbn [fst snd] in Hc2 |- *.
    rewrite Hc2. subst c2. rewrite Hc1. by destruct Hu1 as (-> & _).
  - apply new_list_content.
  - done.
Qed.

(** X22: with a non-empty status and no keywords [filter_tasks] returns
    the tasks [filter_tasks_by_status] returns, and with a non-empty
    keyword list and no status those [search_tasks_by_keywords] returns.
    On the empty keyword list the two differ: [search_tasks_by_keywords]
    returns no task, [filter_tasks] returns every task. *)
Theorem X22_filter_tasks_and_the_single_queries
    (st : string) (ks : list string) (m : AdvancedTaskManager) :
  (st <> "" ->
   result (filter_tasks (Some st) None m) = result (filter_tasks_by_status st m)) /\
  (ks <> [] ->
   result (filter_tasks None (Some ks) m) = result (search_tasks_by_keywords ks m)) /\
  result (search_tasks_by_keywords [] m) = [] /\
  result (filter_tasks None (Some []) m) = content m (tasks m).
Proof.
  rewrite !filter_tasks_result. unfold result, filter_tasks_by_status,
    search_tasks_by_keywords. rewrite !new_list_content. split_and!.
  - intros Hst. apply list_filter_iff. intros l.
    unfold status_ok, keywords_ok. simpl.
    assert (E : negb (String.eqb st "") = true).
    { apply negb_true_iff, String.eqb_neq. done. }
    rewrite E. split; [intros [H _]; specialize (H eq_refl); congruence|].
    intros ->. split; [done|discriminate].
  - intros Hks. apply list_filter_iff. intros l.
    unfold status_ok, keywords_ok. simpl. destruct ks as [|k ks]; [done|].
    simpl. split; [intros [_ H]; by apply H|]. intros H. split; [discriminate|done].
  - induction (content m (tasks m)) as [|l c IH]; [done|].
    rewrite filter_cons_False; [done|]. simpl. discriminate.
  - apply Core_Facts.filter_all. apply Forall_forall. intros l _.
    unfold status_ok, keywords_ok. simpl. split; discriminate.
Qed.

Lemma X22_filter_tasks_and_the_single_queries_witness :
  "complete" <> "" /\ ["RUN"; "milk"] <> [] /\
  result (filter_tasks (Some "complete") None sample) =
    result (filter_tasks_by_status "complete" sample) /\
  result (filter_tasks None (Some ["RUN"; "milk"]) sample) =
    result (search_tasks_by_keywords ["RUN"; "milk"] sample).
Proof.
  assert (H1 : "complete" <> "") by discriminate.
  assert (H2 : ["RUN"; "milk"] <> []) by discriminate.
  pose proof (X22_filter_tasks_and_the_single_queries
                "complete" ["RUN"; "milk"] sample) as (Ha & Hb & _).
  split_and!; [exact H1|exact H2|exact (Ha H1)|exact (Hb H2)].
Defined.

(** *** Keywords *)

Lemma lower_ascii_idem c : lower_ascii (lower_ascii c) = lower_ascii c.
Proof.
  unfold lower_ascii.
  destruct ((65 <=? nat_of_ascii c) && (nat_of_ascii c <=? 90))%nat eqn:E; [|by rewrite E].
  apply andb_true_iff in E as [E1 E2].
  apply Nat.leb_le in E1, E2.
  rewrite nat_ascii_embedding by lia.
  destruct ((65 <=? nat_of_ascii c + 32) && (nat_of_ascii c + 32 <=? 90))%nat eqn:E';
    [|done].
  apply andb_true_iff in E' as [_ E']. apply Nat.leb_le in E'. lia.
Qed.

Lemma lower_idem s : lower (lower s) = lower s.
Proof. induction s as [|c s IH]; [done|]. simpl. by rewrite lower_ascii_idem, IH. Qed.

Lemma contains_empty h : contains "" h = true.
Proof. by destruct h. Qed.

Lemma any_keyword_app ks1 ks2 t :
  any_keyword (ks1 ++ ks2) t = any_keyword ks1 t || any_keyword ks2 t.
Proof. unfold any_keyword. apply existsb_app. Qed.

(** X23: keyword search ignores the case of the keyword (a keyword and its
    lower-case form find the same tasks); the empty keyword finds every
    task; a one-keyword list finds what the single keyword finds; and a
    task is found for a list of keywords exactly when it is found for one of
    them, so adding keywords never loses a task. *)
Theorem X23_keyword_search (k : string) (ks ks' : list string)
    (m : AdvancedTaskManager) :
  result (search_tasks_by_keyword (lower k) m) = result (search_tasks_by_keyword k m) /\
  result (search_tasks_by_keyword "" m) = content m (tasks m) /\
  result (search_tasks_by_keywords [k] m) = result (search_tasks_by_keyword k m) /\
  (forall task, task ∈ result (search_tasks_by_keywords ks m) <->
     exists k', k' ∈ ks /\ task ∈ result (search_tasks_by_keyword k' m)) /\
  result (search_tasks_by_keywords ks m) `sublist_of`
    result (search_tasks_by_keywords (ks ++ ks') m).
Proof.
  unfold result, search_tasks_by_keyword, search_tasks_by_keywords.
  rewrite !new_list_content. split_and!.
  - apply list_filter_iff. intros l. unfold keyword_hit. by rewrite lower_idem.
  - apply Core_Facts.filter_all. apply Forall_forall. intros l _.
    unfold keyword_hit. simpl. by rewrite contains_empty.
  - apply list_filter_iff. intros l. unfold any_keyword. simpl.
    by rewrite orb_false_r.
  - intros l. rewrite list_elem_of_filter. unfold any_keyword.
    rewrite existsb_exists. split.
    + intros [(k' & Hin & Hk) Hl]. exists k'. split; [by apply list_elem_of_In|].
      rewrite new_list_content. by apply list_elem_of_filter.
    + intros (k' & Hin & Hl). rewrite new_list_content in Hl.
      apply list_elem_of_filter in Hl as [Hk Hl]. split; [|done].
      exists k'. split; [by apply list_elem_of_In|done].
  - induction (content m (tasks m)) as [|l c IH]; [done|].
    destruct (any_keyword ks (deref (objs m) l)) eqn:E.
    + rewrite (filter_cons_True _ l) by done.
      rewrite (filter_cons_True _ l) by (by rewrite any_keyword_app, E).
      by apply sublist_skip.
    + rewrite (filter_cons_False _ l) by (rewrite E; discriminate).
      destruct (decide (any_keyword (ks ++ ks') (deref (objs m) l) = true)).
      * rewrite filter_cons_True by done. by apply sublist_cons.
      * by rewrite filter_cons_False.
Qed.

End advance_querying_Extra.


(** * Properties of categories and tags *)

Module CatandTagging_Extra.
Import CatandTagging.

(** *** Splitting and joining on slashes *)

Lemma split_slash_nonempty s : split_slash s <> [].
Proof.
  destruct s as [|c s]; simpl; [done|].
  destruct (Ascii.eqb c "/"); [done|]. by destruct (split_slash s).
Qed.

Lemma join_slash_cons piece pieces :
  pieces <> [] ->
  join_slash (piece :: pieces) = piece +:+ String "/" (join_slash pieces).
Proof. by destruct pieces. Qed.

Lemma join_split s : join_slash (split_slash s) = s.
Proof.
  induction s as [|c s IH]; [done|]. simpl.
  destruct (Ascii.eqb c "/") eqn:E.
  - apply Ascii.eqb_eq in E as ->.
    rewrite join_slash_cons by apply split_slash_nonempty. simpl. by rewrite IH.
  - pose proof (split_slash_nonempty s) as Hne.
    destruct (split_slash s) as [|piece pieces]; [done|].
    destruct pieces as [|piece' pieces].
    + simpl in *. by rewrite IH.
    + rewrite join_slash_cons by done. rewrite join_slash_cons in IH by done.
      by rewrite <- IH.
Qed.

Lemma split_no_slash piece :
  no_slash piece = true -> split_slash piece = [piece].
Proof.
  induction piece as [|c s IH]; [done|]. simpl. intros H.
  apply andb_true_iff in H as [Hc Hs]. apply negb_true_iff in Hc.
  rewrite Hc, IH by done. done.
Qed.

Lemma split_app_slash piece rest :
  no_slash piece = true ->
  split_slash (piece +:+ String "/" rest) = piece :: split_slash rest.
Proof.
  induction piece as [|c s IH]; [done|]. simpl. intros H.
  apply andb_true_iff in H as [Hc Hs]. apply negb_true_iff in Hc.
  rewrite Hc, IH by done. done.
Qed.

Lemma split_join pieces :
  pieces <> [] -> Forall (fun piece => no_slash piece = true) pieces ->
  split_slash (join_slash pieces) = pieces.
Proof.
  induction pieces as [|piece pieces IH]; [done|]. intros _ H.
  apply Forall_cons in H as [Hp H].
  destruct pieces as [|piece' pieces]; [by apply split_no_slash|].
  rewrite join_slash_cons by done. rewrite split_app_slash by done.
  by rewrite IH.
Qed.

Lemma split_pieces_no_slash s :
  Forall (fun piece => no_slash piece = true) (split_slash s).
Proof.
  induction s as [|c s IH]; simpl; [by repeat constructor|].
  destruct (Ascii.eqb c "/") eqn:E; [by constructor|].
  destruct (split_slash s) as [|piece pieces].
  { apply Forall_singleton. simpl. by rewrite E. }
  apply Forall_cons in IH as [Hp IH]. constructor; [|done].
  simpl. by rewrite E, Hp.
Qed.

Lemma filter_none {A} (P : A -> Prop) `{!forall x, Decision (P x)} (l : list A) :
  (forall x, x ∈ l -> ~ P x) -> filter P l = [].
Proof.
  induction l as [|x l IH]; intros Hn; [done|].
  rewrite filter_cons_False by (apply Hn; left).
  apply IH. intros y Hy. apply Hn. by right.
Qed.

(** X24: [filter_tasks_by_nested_category] with a hierarchy of pieces that
    contain no slash returns the tasks whose category is the pieces joined
    by slashes, as [filter_tasks_by_category] does for the joined text,
    except that the empty category never matches (so the hierarchy [[""]]
    finds nothing). The empty hierarchy, and any hierarchy with a piece
    that contains a slash, find nothing. *)
Theorem X24_nested_category (hierarchy : list string)
    (m : TaskManagerWithCategoriesAndTags) :
  (hierarchy <> [] -> Forall (fun piece => no_slash piece = true) hierarchy ->
   filter_tasks_by_nested_category hierarchy m =
     if decide (join_slash hierarchy = "") then []
     else filter_tasks_by_category (join_slash hierarchy) m) /\
  (hierarchy = [] \/ ~ Forall (fun piece => no_slash piece = true) hierarchy ->
   filter_tasks_by_nested_category hierarchy m = []).
Proof.
  unfold filter_tasks_by_nested_category, filter_tasks_by_category. split.
  - intros Hne Hns. destruct (decide (join_slash hierarchy = "")) as [E|E].
    + apply filter_none. intros l _. unfold in_hierarchy.
      destruct (category (deref (objs m) l)) as [c|]; [|tauto].
      intros [Hc Hs]. apply Hc. by rewrite <- (join_split c), Hs.
    + apply list_filter_iff. intros l. unfold in_hierarchy.
      destruct (category (deref (objs m) l)) as [c|]; [|done]. split.
      * intros [_ Hs]. by rewrite <- Hs, join_split.
      * intros [= ->]. split; [done|by apply split_join].
  - intros Hbad. apply filter_none. intros l _. unfold in_hierarchy.
    destruct (category (deref (objs m) l)) as [c|]; [|tauto].
    intros [_ Hs]. destruct Hbad as [->|Hbad].
    + by apply (split_slash_nonempty c).
    + apply Hbad. rewrite <- Hs. apply split_pieces_no_slash.
Qed.

Lemma X24_nested_category_witness :
  ["Work"; "Project A"] <> [] /\
  filter_tasks_by_nested_category ["Work"; "Project A"] sample =
    filter_tasks_by_category "Work/Project A" sample /\
  filter_tasks_by_nested_category [] sample = [].
Proof.
  assert (H1 : ["Work"; "Project A"] <> []) by discriminate.
  assert (H2 : Forall (fun piece => no_slash piece = true) ["Work"; "Project A"])
    by (repeat constructor).
  split; [exact H1|]. split.
  - exact (proj1 (X24_nested_category ["Work"; "Project A"] sample) H1 H2).
  - apply (proj2 (X24_nested_category [] sample)). by left.
Defined.

(** X25: the category and tag queries return tasks of the store in store
    order and only tasks that carry what was asked for: a task found by
    category has exactly that category, a task found by tags has one of the
    tags asked for, so tasks added without category or without tags are
    never returned; the empty tag list finds nothing. *)
Theorem X25_category_and_tag_queries (c : string) (ts : list string)
    (m : TaskManagerWithCategoriesAndTags) :
  filter_tasks_by_category c m `sublist_of` tasks m /\
  search_tasks_by_tags ts m `sublist_of` tasks m /\
  Forall (fun l => category (deref (objs m) l) = Some c)
         (filter_tasks_by_category c m) /\
  Forall (fun l => exists tag, tag ∈ ts /\ tag ∈ tags (deref (objs m) l))
         (search_tasks_by_tags ts m) /\
  search_tasks_by_tags [] m = [].
Proof.
  unfold filter_tasks_by_category, search_tasks_by_tags. split_and!.
  - apply sublist_filter.
  - apply sublist_filter.
  - apply Forall_forall. intros l Hl. apply list_elem_of_filter in Hl. tauto.
  - apply Forall_forall. intros l Hl. apply list_elem_of_filter in Hl as [Hl _].
    unfold any_tag in Hl. apply existsb_exists in Hl as (tag & Hin & Ht).
    exists tag. split; [by apply list_elem_of_In|].
    by apply bool_decide_eq_true in Ht.
  - apply filter_none. intros l _. simpl. discriminate.
Qed.

End CatandTagging_Extra.


(** * Properties of task sharing *)

Module CollabFeature_Extra.
Import Core CollabFeature.

Lemma first_titled_none h t ls :
  Forall (fun l => title (attrs (deref h l)) <> t) ls -> first_titled h t ls = None.
Proof.
  intros H. unfold first_titled.
  induction H as [|l ls Hl _ IH]; [done|]. by rewrite filter_cons_False.
Qed.

Lemma first_titled_first h t pre l post :
  Forall (fun l0 => title (attrs (deref h l0)) <> t) pre ->
  title (attrs (deref h l)) = t ->
  first_titled h t (pre ++ l :: post) = Some l.
Proof.
  intros Hpre Hl. unfold first_titled.
  induction Hpre as [|l0 pre H0 _ IH]; simpl.
  - by rewrite filter_cons_True.
  - by rewrite filter_cons_False.
Qed.

(** X26: every failure of [share_task] and of [add_comment_to_task]
    leaves the manager exactly as it was and prints the one line that
    names the cause: a user that does not exist, or no task with the title
    in the list of the user. *)
Theorem X26_failed_calls_change_nothing
    (from_user to_user t permission comment : string) (cm : CollaborationManager) :
  (users cm !! from_user = None \/ users cm !! to_user = None ->
   share_task from_user to_user t permission cm =
     (cm, ["Both users must exist to share a task."])) /\
  (forall from_tasks,
     users cm !! from_user = Some from_tasks -> is_Some (users cm !! to_user) ->
     Forall (fun l => title (attrs (deref (objs cm) l)) <> t) from_tasks ->
     share_task from_user to_user t permission cm =
       (cm, ["Task '" +:+ t +:+ "' not found for user '" +:+ from_user +:+ "'."])) /\
  (users cm !! from_user = None ->
   add_comment_to_task from_user t comment cm =
     (cm, ["User '" +:+ from_user +:+ "' does not exist."])) /\
  (forall from_tasks,
     users cm !! from_user = Some from_tasks ->
     Forall (fun l => title (attrs (deref (objs cm) l)) <> t) from_tasks ->
     add_comment_to_task from_user t comment cm =
       (cm, ["Task '" +:+ t +:+ "' not found for user '" +:+ from_user +:+ "'."])).
Proof.
  unfold share_task, add_comment_to_task. split_and!.
  - intros [-> | H]; [done|]. rewrite H. by destruct (users cm !! from_user).
  - intros fs -> [ts ->] H. by rewrite first_titled_none.
  - by intros ->.
  - intros fs -> H. by rewrite first_titled_none.
Qed.

Lemma X26_failed_calls_change_nothing_witness :
  users sample !! "zed" = None /\
  share_task "ann" "zed" "Plan" "read" sample =
    (sample, ["Both users must exist to share a task."]) /\
  share_task "bob" "ann" "Plan" "read" sample =
    (sample, ["Task 'Plan' not found for user 'bob'."]).
Proof.
  assert (H : users sample !! "zed" = None) by (by vm_compute).
  pose proof (X26_failed_calls_change_nothing "ann" "zed" "Plan" "read" "" sample)
    as (H1 & _).
  pose proof (X26_failed_calls_change_nothing "bob" "ann" "Plan" "read" "" sample)
    as (_ & H2 & _).
  split_and!; [exact H|exact (H1 (or_intror H))|].
  apply (H2 []); [by vm_compute|by eexists|constructor].
Defined.

(** X27: a successful [share_task] copies the first task of the sender
    that has the title: the receiver's list grows at its end by one new
    object with the title, description and status of that task, read-only
    exactly when the permission is the text "read", and without comments;
    every object that existed and every other user's list stay as they
    were. *)
Theorem X27_share_task_copies_the_first_match
    (from_user to_user t permission : string) (cm : CollaborationManager)
    (pre post to_tasks : list loc) (l : loc) :
  users cm !! from_user = Some (pre ++ l :: post) ->
  users cm !! to_user = Some to_tasks ->
  Forall (fun l0 => title (attrs (deref (objs cm) l0)) <> t) pre ->
  title (attrs (deref (objs cm) l)) = t ->
  let cm' := (share_task from_user to_user t permission cm).1 in
  let new := fresh (dom (objs cm)) in
  (new ∉ dom (objs cm)) /\
  users cm' !! to_user = Some (to_tasks ++ [new]) /\
  (forall u, u <> to_user -> users cm' !! u = users cm !! u) /\
  (forall l0, l0 ∈ dom (objs cm) -> objs cm' !! l0 = objs cm !! l0) /\
  attrs (deref (objs cm') new) = attrs (deref (objs cm) l) /\
  read_only (deref (objs cm') new) = bool_decide (permission = "read") /\
  comments (deref (objs cm') new) = None.
Proof.
  intros Hf Ht Hpre Hl cm' new. subst cm'. unfold share_task.
  rewrite Hf, Ht, (first_titled_first _ _ _ _ _ Hpre Hl). simpl. fold new.
  assert (Hnew : new ∉ dom (objs cm)) by apply is_fresh.
  unfold deref. rewrite lookup_total_insert_eq. simpl. split_and!; try done.
  - apply lookup_insert_eq.
  - intros u Hu. by apply lookup_insert_ne.
  - intros l0 Hl0. apply lookup_insert_ne. by intros <-.
  - by destruct (attrs (objs cm !!! l)).
Qed.

Lemma X27_share_task_copies_the_first_match_witness :
  let cm' := (share_task "ann" "bob" "Plan" "edit" sample).1 in
  users cm' !! "bob" = Some [3%positive] /\
  attrs (deref (objs cm') 3%positive) = mkTask "Plan" "first" "complete" /\
  read_only (deref (objs cm') 3%positive) = false.
Proof.
  pose proof (X27_share_task_copies_the_first_match
                "ann" "bob" "Plan" "edit" sample [] [2%positive] [] 1%positive)
    as H.
  destruct H as (_ & Hu & _ & _ & Ha & Hr & _);
    [by vm_compute|by vm_compute|constructor|by vm_compute|].
  split_and!; [exact Hu|exact Ha|exact Hr].
Defined.

(** *** Status changes on shared tasks *)

Lemma marked_title o :
  title (attrs (call_mark_complete o).1) = title (attrs o).
Proof. unfold call_mark_complete. by destruct (read_only o). Qed.

Lemma marked_read_only o :
  read_only (call_mark_complete o).1 = read_only o.
Proof. unfold call_mark_complete. by destruct (read_only o) eqn:E. Qed.

Lemma marked_idem o :
  (call_mark_complete (call_mark_complete o).1).1 = (call_mark_complete o).1.
Proof.
  unfold call_mark_complete. destruct (read_only o) eqn:E; simpl; [by rewrite E|done].
Qed.

Lemma mark_step_deref t h out l0 l :
  deref (mark_step t (h, out) l0).1 l =
  if decide (l = l0 /\ title (attrs (deref h l)) = t)
  then (call_mark_complete (deref h l)).1 else deref h l.
Proof.
  unfold mark_step. cbn [fst snd].
  destruct (decide (title (attrs (deref h l0)) = t)) as [E0|E0]; cbn [fst snd].
  - destruct (decide (l = l0)) as [->|Hne].
    + unfold deref at 1. rewrite lookup_total_insert_eq.
      by rewrite decide_True.
    + unfold deref at 1. rewrite lookup_total_insert_ne by done.
      rewrite decide_False; [done|]. by intros [? _].
  - rewrite decide_False; [done|]. intros [-> ?]. done.
Qed.

Lemma mark_step_out t h out l0 :
  (mark_step t (h, out) l0).2 =
  out ++ (if decide (title (attrs (deref h l0)) = t /\ read_only (deref h l0) = true)
          then ["Permission denied: Read-only access."] else []).
Proof.
  unfold mark_step, call_mark_complete. cbn [fst snd].
  destruct (decide (title (attrs (deref h l0)) = t)) as [E0|E0]; cbn [fst snd].
  - destruct (read_only (deref h l0)) eqn:Er; cbn [fst snd].
    + by rewrite decide_True.
    + rewrite decide_False; [done|]. by intros [_ ?].
  - rewrite decide_False; [by rewrite app_nil_r|]. by intros [? _].
Qed.

Lemma mark_fold t ls : forall h out,
  (forall l,
     deref (foldl (mark_step t) (h, out) ls).1 l =
     if decide (l ∈ ls /\ title (attrs (deref h l)) = t)
     then (call_mark_complete (deref h l)).1 else deref h l) /\
  (foldl (mark_step t) (h, out) ls).2 =
    out ++ ((fun _ => "Permission denied: Read-only access.") <$>
            filter (fun l => title (attrs (deref h l)) = t /\
                             read_only (deref h l) = true) ls).
Proof.
  induction ls as [|l0 ls IH]; intros h out.
  - cbn [foldl fst snd]. split.
    + intros l. rewrite decide_False; [done|].
      intros [H _]. by apply elem_of_nil in H.
    + rewrite filter_nil. simpl. by rewrite app_nil_r.
  - cbn [foldl]. pose proof (mark_step_deref t h out l0) as Hd.
    pose proof (mark_step_out t h out l0) as Ho.
    destruct (mark_step t (h, out) l0) as [h1 out1]. cbn [fst snd] in Hd, Ho.
    destruct (IH h1 out1) as [IHd IHo]. clear IH.
    assert (Ht : forall l, title (attrs (deref h1 l)) = title (attrs (deref h l))).
    { intros l. rewrite Hd.
      destruct (decide (l = l0 /\ title (attrs (deref h l)) = t));
        [apply marked_title|done]. }
    assert (Hr : forall l, read_only (deref h1 l) = read_only (deref h l)).
    { intros l. rewrite Hd.
      destruct (decide (l = l0 /\ title (attrs (deref h l)) = t));
        [apply marked_read_only|done]. }
    split.
    + intros l. rewrite IHd, Ht, Hd.
      destruct (decide (l ∈ ls /\ title (attrs (deref h l)) = t)) as [[Hin E]|Hn].
      * rewrite (decide_True (P := l ∈ l0 :: ls /\ _)) by (split; [by right|done]).
        destruct (decide (l = l0 /\ title (attrs (deref h l)) = t));
          [apply marked_idem|done].
      * destruct (decide (l = l0 /\ title (attrs (deref h l)) = t)) as [[-> E]|Hn'].
        -- by rewrite decide_True by (split; [left|done]).
        -- rewrite decide_False; [done|]. intros [Hin E].
           apply elem_of_cons in Hin as [->|Hin]; tauto.
    + rewrite IHo, Ho, <- app_assoc. f_equal.
      rewrite (list_filter_iff _
                 (fun l => title (attrs (deref h l)) = t /\ read_only (deref h l) = true)
                 ls) by (intros l; by rewrite Ht, Hr).
      rewrite filter_cons. by destruct (decide _).
Qed.

(** X28: [mark_task_complete] on a user's list completes the tasks with
    the title that are not read-only and leaves every read-only task, and
    every other object, as it was; it prints one denial line for each
    read-only task with the title in the list, in list order. *)
Theorem X28_read_only_tasks_resist_marking
    (t : string) (h : gmap loc TaskObject) (ls : list loc) :
  let h' := (mark_task_complete t h ls).1 in
  (forall l,
     deref h' l =
     if decide (l ∈ ls /\ title (attrs (deref h l)) = t /\
                read_only (deref h l) = false)
     then mkObject (mark_complete (attrs (deref h l))) false (comments (deref h l))
     else deref h l) /\
  (mark_task_complete t h ls).2 =
    (fun _ => "Permission denied: Read-only access.") <$>
    filter (fun l => title (attrs (deref h l)) = t /\ read_only (deref h l) = true) ls.
Proof.
  intros h'. subst h'. unfold mark_task_complete.
  destruct (mark_fold t ls h []) as [Hd Ho]. split; [|exact Ho].
  intros l. rewrite Hd. unfold call_mark_complete.
  destruct (read_only (deref h l)) eqn:Er.
  - rewrite (decide_False (P := _ /\ _ /\ true = false)) by (by intros (_ & _ & ?)).
    by case_decide.
  - destruct (decide (l ∈ ls /\ title (attrs (deref h l)) = t)) as [[? ?]|Hn].
    + by rewrite decide_True.
    + rewrite decide_False; [done|]. intros (? & ? & _). by apply Hn.
Qed.

(** A task shared with permission "read" keeps its status when the
    receiver marks it, and the denial is printed; shared with any other
    permission it is completed. *)
Example read_only_copy :
  let cm := (share_task "ann" "bob" "Plan" "read"
               (mkCM (<[1%positive := mkObject (mkTask "Plan" "first" "incomplete")
                                               false None]> (objs sample))
                     (users sample))).1 in
  let r := mark_task_complete "Plan" (objs cm) [3%positive] in
  status (attrs (deref r.1 3%positive)) = "incomplete" /\
  r.2 = ["Permission denied: Read-only access."].
Proof. split; by vm_compute. Qed.

End CollabFeature_Extra.


(** * Properties of the console interface *)

Module UI_Enhancement_Extra.
Import Core UI_Enhancement.

(** *** The bounded command history *)

Lemma deque_append_spec x d :
  List.length d <= 50 ->
  deque_append x d =
    (if decide (List.length d = 50) then drop 1 d else d) ++ [x] /\
  List.length (deque_append x d) <= 50.
Proof.
  intros H. unfold deque_append. rewrite length_app. simpl.
  destruct (decide (List.length d = 50)) as [E|E].
  - rewrite E. change (50 + 1 - 50) with 1.
    rewrite drop_app_le by lia. split; [done|].
    rewrite length_app, length_drop. simpl. lia.
  - replace (List.length d + 1 - 50) with 0 by lia. rewrite drop_0.
    split; [done|]. rewrite length_app. simpl. lia.
Qed.

Lemma with_title_history prompt method done_line ci c :
  command_history (with_title prompt method done_line ci c).1.2 =
    command_history ci.
Proof. unfold with_title. by destruct (input prompt c) as [[line|] c']. Qed.

Lemma change_theme_keeps ci c :
  command_history (change_theme ci c).1.2 = command_history ci /\
  task_manager (change_theme ci c).1.2 = task_manager ci.
Proof.
  unfold change_theme. destruct (input _ _) as [[choice|] c']; [|done].
  repeat case_decide; done.
Qed.

Lemma execute_command_history command ci c :
  command_history (execute_command command ci c).1.2 =
    deque_append command (command_history ci).
Proof.
  unfold execute_command.
  repeat (case_decide; [|]); try done.
  - destruct (input _ c) as [[t|] c1]; [|done].
    by destruct (input _ c1) as [[d|] c2].
  - by rewrite with_title_history.
  - by rewrite with_title_history.
  - by rewrite with_title_history.
  - by rewrite (proj1 (change_theme_keeps _ _)).
Qed.

Lemma not_mutating command :
  ~ mutating command ->
  command <> "1" /\ command <> "2" /\ command <> "4" /\ command <> "5".
Proof.
  unfold mutating. intros H.
  split_and!; intros ->; apply H; apply list_elem_of_In; simpl; tauto.
Qed.

Lemma not_known command :
  ~ known command ->
  command <> "1" /\ command <> "2" /\ command <> "3" /\ command <> "4" /\
  command <> "5" /\ command <> "6" /\ command <> "7" /\ command <> "8".
Proof.
  unfold known. intros H.
  split_and!; intros ->; apply H; apply list_elem_of_In; simpl; tauto.
Qed.

(** X29: [execute_command] records every command, known or not and
    whether or not it ran to its end, at the end of the command history,
    dropping the oldest entry when fifty are held, so the history never
    holds more than fifty. Only the commands 1, 2, 4 and 5 reach the task
    manager; an unknown command prints the invalid-command line and reads
    nothing. *)
Theorem X29_command_history_is_bounded
    (command : string) (ci : ConsoleInterface) (c : console) :
  List.length (command_history ci) <= 50 ->
  let r := execute_command command ci c in
  command_history r.1.2 =
    (if decide (List.length (command_history ci) = 50)
     then drop 1 (command_history ci) else command_history ci) ++ [command] /\
  List.length (command_history r.1.2) <= 50 /\
  (~ mutating command -> task_manager r.1.2 = task_manager ci) /\
  (~ known command ->
   r.1.1 = Return /\ r.2 = print "Invalid command. Please try again." c).
Proof.
  intros H r. subst r. rewrite execute_command_history.
  destruct (deque_append_spec command _ H) as [E L]. split_and!; try done.
  - intros (H1 & H2 & H4 & H5)%not_mutating. unfold execute_command.
    rewrite !decide_False by done.
    clear E L.
    repeat (case_decide; [|]); try done.
    by rewrite (proj2 (change_theme_keeps _ _)).
  - intros (H1 & H2 & H3 & H4 & H5 & H6 & H7 & H8)%not_known.
    unfold execute_command. by rewrite !decide_False by done.
Qed.

Lemma X29_command_history_is_bounded_witness :
  let ci := mkCI TaskManager.init (replicate 50 "3") "default" in
  let r := execute_command "x" ci (mkConsole [] []) in
  List.length (command_history ci) <= 50 /\
  command_history r.1.2 = replicate 49 "3" ++ ["x"] /\
  task_manager r.1.2 = TaskManager.init.
Proof.
  intros ci r.
  assert (H : List.length (command_history ci) <= 50) by (vm_compute; lia).
  destruct (X29_command_history_is_bounded "x" ci (mkConsole [] []) H)
    as (Hh & _ & Ht & _).
  split_and!; [exact H|exact Hh|].
  apply Ht. intros Hm. unfold mutating in Hm.
  repeat (apply elem_of_cons in Hm as [Hm|Hm]; [discriminate Hm|]).
  by apply elem_of_nil in Hm.
Defined.

(** *** The menu loop *)

Lemma stdin_prints lines : forall c,
  stdin (foldl (fun c line => print line c) c lines) = stdin c.
Proof. induction lines as [|line lines IH]; intros c; [done|]. simpl. by rewrite IH. Qed.

Lemma stdin_input prompt c :
  List.length (stdin (input prompt c).2) <= List.length (stdin c).
Proof. unfold input. destruct (stdin c); simpl; lia. Qed.

Lemma stdin_with_title prompt method done_line ci c :
  List.length (stdin (with_title prompt method done_line ci c).2) <=
  List.length (stdin c).
Proof.
  unfold with_title. pose proof (stdin_input prompt c) as H.
  by destruct (input prompt c) as [[line|] c'].
Qed.

Lemma stdin_change_theme ci c :
  List.length (stdin (change_theme ci c).2) <= List.length (stdin c).
Proof.
  unfold change_theme.
  set (c1 := foldl _ c _). assert (E : stdin c1 = stdin c) by apply stdin_prints.
  pose proof (stdin_input "Choose a theme (1-3): " c1) as H. rewrite E in H.
  destruct (input _ c1) as [[choice|] c']; [|done].
  repeat case_decide; done.
Qed.

(** No command puts lines back on the input. *)
Lemma stdin_execute_command command ci c :
  List.length (stdin (execute_command command ci c).2) <= List.length (stdin c).
Proof.
  unfold execute_command.
  repeat (case_decide; [|]);
    try apply stdin_with_title; try apply stdin_change_theme;
    try (cbn [snd]; rewrite ?stdin_prints; simpl; lia).
  pose proof (stdin_input "Enter task title: " c) as H1.
  destruct (input _ c) as [[t|] c1]; [|done].
  pose proof (stdin_input "Enter task description: " c1) as H2.
  destruct (input _ c1) as [[d|] c2]; simpl in *; lia.
Qed.

Lemma run_enough_fuel fuel : forall ci c,
  List.length (stdin c) < fuel -> is_Some (run fuel ci c).
Proof.
  induction fuel as [|fuel IH]; intros ci c H; [lia|]. simpl.
  unfold input. rewrite (stdin_prints _ c : stdin (display_menu c) = stdin c).
  destruct (stdin c) as [|command rest] eqn:E; [by eexists|].
  case_decide; [by eexists|].
  set (c1 := mkConsole rest _).
  pose proof (stdin_execute_command command ci c1) as Hle.
  destruct (execute_command command ci c1) as [[[] ci'] c'].
  - apply IH. simpl in *. lia.
  - by eexists.
Qed.

Lemma run_history fuel : forall ci c r,
  List.length (command_history ci) <= 50 ->
  run fuel ci c = Some r -> List.length (command_history r.1.2) <= 50.
Proof.
  induction fuel as [|fuel IH]; intros ci c r H; [done|]. simpl.
  destruct (input _ _) as [[command|] c1]; [|by intros [= <-]].
  case_decide; [by intros [= <-]|].
  pose proof (execute_command_history command ci c1) as Hh.
  destruct (execute_command command ci c1) as [[[] ci'] c']; simpl in Hh.
  - apply IH. rewrite Hh. by apply deque_append_spec.
  - intros [= <-]. simpl. rewrite Hh. by apply deque_append_spec.
Qed.

(** X30: with more fuel than there are lines of input, [run] ends. When
    the input has no line left it ends in [EOFError] after the menu and the
    prompt; when the next line is "8" it ends normally at once, with
    interface and task manager unchanged and the exit command not recorded
    in the command history; and however it ends, a history of at most
    fifty entries still has at most fifty. *)
Theorem X30_run_ends (fuel : nat) (ci : ConsoleInterface) (c : console) :
  List.length (stdin c) < fuel ->
  is_Some (run fuel ci c) /\
  (stdin c = [] ->
   run fuel ci c =
     Some (EOFError, ci,
           mkConsole [] (written (display_menu c) ++ [Prompt "Enter your choice: "]))) /\
  (forall rest, stdin c = "8" :: rest ->
   run fuel ci c =
     Some (Return, ci,
           mkConsole rest (written (display_menu c) ++ [Prompt "Enter your choice: "]))) /\
  (forall r, List.length (command_history ci) <= 50 -> run fuel ci c = Some r ->
     List.length (command_history r.1.2) <= 50).
Proof.
  intros H. split_and!.
  - by apply run_enough_fuel.
  - intros E. destruct fuel as [|fuel]; [lia|]. simpl. unfold input.
    rewrite (stdin_prints _ c : stdin (display_menu c) = stdin c), E. done.
  - intros rest E. destruct fuel as [|fuel]; [lia|]. simpl. unfold input.
    rewrite (stdin_prints _ c : stdin (display_menu c) = stdin c), E.
    by rewrite decide_True.
  - intros r. apply run_history.
Qed.

Lemma X30_run_ends_witness :
  let c := mkConsole ["x"; "8"; "left"] [] in
  let ci := ConsoleInterface_init TaskManager.init in
  List.length (stdin c) < 4 /\
  is_Some (run 4 ci c) /\
  (run 4 ci c ≫= fun r => Some (r.1.1, command_history r.1.2, stdin r.2)) =
    Some (Return, ["x"], ["left"]).
Proof.
  intros c ci.
  assert (H : List.length (stdin c) < 4) by (vm_compute; lia).
  split_and!; [exact H|exact (proj1 (X30_run_ends 4 ci c H))|by vm_compute].
Defined.

End UI_Enhancement_Extra.
